(** * User management service and client list component

    A shallow embedding of
    - the backend [UserService] (in-memory store, id allocation,
      sanitisation, credential check) and the [/login], [POST /users] and
      [PUT /users/:id] handlers built on it;
    - the Angular [UsersComponent] list pipeline (fetch, filter, sort, cap).

    Modelling conventions.
    - A TypeScript [number] that the program only uses as an integer (ids, the
      id counter, the display cap, time stamps) is a [Z].
    - An optional property ([role?], [password?]) is an [option]; [None] reads
      as [undefined].
    - A [static async] method of the service is a computation in the monad
      [M]: it reads and writes the two static fields and either returns or
      throws an [Error] with a message.  A mutation made before a [throw]
      stays, as in JavaScript.
    - [bcrypt], [jwt], [String.prototype.localeCompare] and the [Date] parser
      are libraries outside the repository: section variables.
    - Arrays of the component live in a heap of arrays and are held by
      reference, so that copying ([[...a]], [filter], [slice]) and in-place
      sorting ([sort]) are distinguished. *)

From Stdlib Require Import ZArith String Ascii List Sorted Lia Bool.
From Stdlib Require OrderedTypeEx.
From stdpp Require Import base option list strings.
Import ListNotations.

Local Open Scope string_scope.
Local Open Scope list_scope.
Local Open Scope Z_scope.

(** ** Backend: [UserService] and its HTTP handlers *)

Module Backend.

(** [interface User] of [types/user]. *)
Record User := mkUser {
  id : Z;
  name : string;
  email : string;
  role : option string;
  createdAt : option Z;
  password : option string
}.

Record UserCreateDTO := mkCreate {
  c_name : string;
  c_email : string;
  c_password : string;
  c_role : option string
}.

Record UserUpdateDTO := mkUpdate {
  u_name : option string;
  u_email : option string;
  u_role : option string
}.

(** The two static fields of the class. *)
Record Store := mkStore {
  users : list User;
  idCounter : Z
}.

(** [private static users: User[] = []; private static idCounter = 1]. *)
Definition init : Store := mkStore [] 1.

(** *** Computations that may throw *)

Inductive Result (A : Type) : Type :=
| Ok (a : A)
| Throw (msg : string).
Arguments Ok {A} a.
Arguments Throw {A} msg.

Definition M (A : Type) : Type := Store -> Result A * Store.

Definition ret {A} (a : A) : M A := fun s => (Ok a, s).

Definition bind {A B} (m : M A) (k : A -> M B) : M B :=
  fun s => match m s with
           | (Ok a, s') => k a s'
           | (Throw e, s') => (Throw e, s')
           end.

Definition throw {A} (msg : string) : M A := fun s => (Throw msg, s).

(** [try { m } catch (error) { h error }]. *)
Definition try_catch {A} (m : M A) (h : string -> M A) : M A :=
  fun s => match m s with
           | (Ok a, s') => (Ok a, s')
           | (Throw e, s') => h e s'
           end.

Definition get : M Store := fun s => (Ok s, s).
Definition put (s : Store) : M unit := fun _ => (Ok tt, s).

Notation "'let!' x ':=' m 'in' k" := (bind m (fun x => k))
  (at level 10, x name, m at level 100, k at level 200).

(** *** Array helpers *)

(** [Array.prototype.findIndex]: the first index whose element satisfies
    [p], or [-1]. *)
Fixpoint findIndex {A} (p : A -> bool) (l : list A) : Z :=
  match l with
  | [] => -1
  | x :: l' => if p x then 0
               else let i := findIndex p l' in
                    if i =? -1 then -1 else i + 1
  end.

(** [a.splice(i, 1)] for [0 <= i]. *)
Definition splice1 {A} (i : Z) (l : list A) : list A :=
  firstn (Z.to_nat i) l ++ skipn (S (Z.to_nat i)) l.

(** JavaScript truthiness of an optional string. *)
Definition truthy (o : option string) : bool :=
  match o with
  | Some s => negb (String.eqb s "")
  | None => false
  end.

(** *** The service *)

(** [const { password, ...userWithoutPassword } = user]. *)
Definition sanitizeUser (u : User) : User :=
  mkUser (id u) (name u) (email u) (role u) (createdAt u) None.

Definition set_name (v : string) (u : User) : User :=
  mkUser (id u) v (email u) (role u) (createdAt u) (password u).
Definition set_email (v : string) (u : User) : User :=
  mkUser (id u) (name u) v (role u) (createdAt u) (password u).
Definition set_role (v : string) (u : User) : User :=
  mkUser (id u) (name u) (email u) (Some v) (createdAt u) (password u).

(** [if (x !== undefined) { user.f = x }]. *)
Definition assign_if {A} (o : option A) (f : A -> User -> User) (u : User) : User :=
  match o with
  | Some v => f v u
  | None => u
  end.

Definition apply_update (d : UserUpdateDTO) (u : User) : User :=
  assign_if (u_role d) set_role
    (assign_if (u_email d) set_email
       (assign_if (u_name d) set_name u)).

(** Every identity in the store has been handed out already (it is below
    the counter) and no two stored records share one. *)
Definition store_ok (s : Store) : Prop :=
  Forall (fun u => id u < idCounter s) (users s) /\ NoDup (map id (users s)).

Section Service.

(** [bcrypt.hash(password, 10)] and [bcrypt.compare(password, hash)].  The
    salt is drawn inside the library; the model fixes one hash function and
    nothing below depends on which. *)
Variable bcrypt_hash : string -> string.
Variable bcrypt_compare : string -> string -> bool.

Definition getUsers : M (list User) :=
  let! s := get in
  ret (map sanitizeUser (users s)).

Definition getUserById (i : Z) : M (option User) :=
  try_catch
    (let! s := get in
     let user := find (fun u => id u =? i) (users s) in
     ret (option_map sanitizeUser user))
    (fun _ => throw "Failed to fetch user").

Definition getUserByEmail (e : string) : M (option User) :=
  try_catch
    (let! s := get in
     let user := find (fun u => String.eqb (email u) e) (users s) in
     ret (option_map sanitizeUser user))
    (fun _ => throw "Failed to fetch user by email").

(** [now] is the clock reading of [new Date()]. *)
Definition createUser (userData : UserCreateDTO) (now : Z) : M User :=
  try_catch
    (let hashedPassword := bcrypt_hash (c_password userData) in
     let! s := get in
     let newUser :=
       mkUser (idCounter s) (c_name userData) (c_email userData)
              (c_role userData) (Some now) (Some hashedPassword) in
     let! _ := put (mkStore (users s ++ [newUser]) (idCounter s + 1)) in
     ret (sanitizeUser newUser))
    (fun _ => throw "Failed to create user").

Definition updateUser (i : Z) (userData : UserUpdateDTO) : M User :=
  try_catch
    (let! s := get in
     let userIndex := findIndex (fun u => id u =? i) (users s) in
     if userIndex =? -1 then throw "User not found"
     else
       match users s !! Z.to_nat userIndex with
       | None => throw "TypeError"
       | Some user =>
           let user' := apply_update userData user in
           let! _ := put (mkStore (<[Z.to_nat userIndex := user']> (users s)) (idCounter s)) in
           ret (sanitizeUser user')
       end)
    (fun _ => throw "Failed to update user").

Definition deleteUser (i : Z) : M bool :=
  try_catch
    (let! s := get in
     let userIndex := findIndex (fun u => id u =? i) (users s) in
     if userIndex =? -1 then throw "User not found"
     else
       let! _ := put (mkStore (splice1 userIndex (users s)) (idCounter s)) in
       ret true)
    (fun _ => throw "Failed to delete user").

Definition verifyCredentials (e : string) (pw : string) : M (option User) :=
  try_catch
    (let! s := get in
     match find (fun u => String.eqb (email u) e) (users s) with
     | None => ret None
     | Some user =>
         if negb (truthy (password user)) then ret None
         else
           let passwordMatch :=
             bcrypt_compare pw (default "" (password user)) in
           if negb passwordMatch then ret None
           else ret (Some (sanitizeUser user))
     end)
    (fun _ => throw "Failed to verify credentials").

(** *** HTTP handlers *)

Inductive Body : Type :=
| JError (msg : string)
| JToken (t : string)
| JUser (u : User)
| JUsers (l : list User)
| NoBody.

(** [res.status(code).json(body)]; [res.json(body)] answers 200. *)
Record Response := mkResp {
  status : Z;
  body : Body
}.

(** [generateToken] of [utils/jwt]: signs [{id, email}]. *)
Variable generateToken : User -> string.

(** [POST /api/auth/register]. *)
Definition register (name email pw : string) (now : Z) : M Response :=
  let! existingUser := getUserByEmail email in
  match existingUser with
  | Some _ => ret (mkResp 400 (JError "Email already registered."))
  | None =>
      let! newUser := createUser (mkCreate name email pw None) now in
      ret (mkResp 201 (JToken (generateToken newUser)))
  end.

(** [POST /api/auth/login]. *)
Definition login (email pw : string) : M Response :=
  let! validUser := verifyCredentials email pw in
  match validUser with
  | None => ret (mkResp 400 (JError "Invalid credentials."))
  | Some u => ret (mkResp 200 (JToken (generateToken u)))
  end.

(** [POST /api/users]. *)
Definition post_user (name email pw : string) (role : option string) (now : Z)
  : M Response :=
  try_catch
    (let! existingUser := getUserByEmail email in
     match existingUser with
     | Some _ => ret (mkResp 409 (JError "Email already exists"))
     | None =>
         let! newUser := createUser (mkCreate name email pw role) now in
         ret (mkResp 201 (JUser newUser))
     end)
    (fun _ => ret (mkResp 500 (JError "Failed to create user"))).

(** [if (email && email !== existingUser.email)
       { if (await getUserByEmail(email)) -> 409 }]:
    [true] when the handler answers 409. *)
Definition email_taken (email : option string) (existingUser : User) : M bool :=
  match email with
  | Some e =>
      if truthy email && negb (String.eqb e (Backend.email existingUser)) then
        let! emailExists := getUserByEmail e in
        ret (match emailExists with Some _ => true | None => false end)
      else ret false
  | None => ret false
  end.

(** [PUT /api/users/:id]. *)
Definition put_user (userId : Z) (name email role : option string) : M Response :=
  try_catch
    (let! existingUser := getUserById userId in
     match existingUser with
     | None => ret (mkResp 404 (JError "User not found"))
     | Some ex =>
         let! taken := email_taken email ex in
         if taken then ret (mkResp 409 (JError "Email already exists"))
         else
           let! updatedUser := updateUser userId (mkUpdate name email role) in
           ret (mkResp 200 (JUser updatedUser))
     end)
    (fun _ => ret (mkResp 500 (JError "Failed to update user"))).

(** *** Operations as data, and runs of operation sequences *)

Inductive Op : Type :=
| OpGetUsers
| OpGetUserById (i : Z)
| OpGetUserByEmail (e : string)
| OpCreateUser (d : UserCreateDTO) (now : Z)
| OpUpdateUser (i : Z) (d : UserUpdateDTO)
| OpDeleteUser (i : Z)
| OpVerifyCredentials (e pw : string).

(** What a method hands back to its caller. *)
Inductive Ret : Type :=
| RList (l : list User)
| RUser (u : User)
| RMaybe (o : option User)
| RBool (b : bool).

Definition run_op (op : Op) : M Ret :=
  match op with
  | OpGetUsers => let! l := getUsers in ret (RList l)
  | OpGetUserById i => let! o := getUserById i in ret (RMaybe o)
  | OpGetUserByEmail e => let! o := getUserByEmail e in ret (RMaybe o)
  | OpCreateUser d now => let! u := createUser d now in ret (RUser u)
  | OpUpdateUser i d => let! u := updateUser i d in ret (RUser u)
  | OpDeleteUser i => let! b := deleteUser i in ret (RBool b)
  | OpVerifyCredentials e pw => let! o := verifyCredentials e pw in ret (RMaybe o)
  end.

(** The calls of a sequence with their outcomes; a caller that catches a
    rejection goes on with the next call. *)
Fixpoint trace (ops : list Op) (s : Store) : list (Op * Result Ret) :=
  match ops with
  | [] => []
  | op :: ops' => let (r, s') := run_op op s in (op, r) :: trace ops' s'
  end.

Fixpoint exec (ops : list Op) (s : Store) : Store :=
  match ops with
  | [] => s
  | op :: ops' => exec ops' (snd (run_op op s))
  end.

(** The identity values handed out by the [createUser] calls of a run. *)
Fixpoint assigned_ids (t : list (Op * Result Ret)) : list Z :=
  match t with
  | [] => []
  | (OpCreateUser _ _, Ok (RUser u)) :: t' => id u :: assigned_ids t'
  | _ :: t' => assigned_ids t'
  end.

(** The records a result carries across the service boundary. *)
Definition returned_records (r : Result Ret) : list User :=
  match r with
  | Ok (RList l) => l
  | Ok (RUser u) => [u]
  | Ok (RMaybe (Some u)) => [u]
  | _ => []
  end.

(** [GET /api/users]. *)
Definition get_users : M Response :=
  try_catch
    (let! result := getUsers in
     ret (mkResp 200 (JUsers result)))
    (fun _ => ret (mkResp 500 (JError "Failed to retrieve users"))).

(** [GET /api/users/:id]. *)
Definition get_user (userId : Z) : M Response :=
  try_catch
    (let! user := getUserById userId in
     match user with
     | None => ret (mkResp 404 (JError "User not found"))
     | Some u => ret (mkResp 200 (JUser u))
     end)
    (fun _ => ret (mkResp 500 (JError "Failed to retrieve user"))).

(** [DELETE /api/users/:id]. *)
Definition delete_user (userId : Z) : M Response :=
  try_catch
    (let! user := getUserById userId in
     match user with
     | None => ret (mkResp 404 (JError "User not found"))
     | Some _ =>
         let! _ := deleteUser userId in
         ret (mkResp 204 NoBody)
     end)
    (fun _ => ret (mkResp 500 (JError "Failed to delete user"))).

(** *** The token check in front of the user routes *)

(** [s.split(' ')]: the pieces between single spaces; never empty. *)
Fixpoint split_space (s : string) : list string :=
  match s with
  | EmptyString => [EmptyString]
  | String c s' =>
      if Ascii.eqb c " " then EmptyString :: split_space s'
      else match split_space s' with
           | w :: ws => String c w :: ws
           | [] => [String c EmptyString]
           end
  end.

(** [verifyToken] of [utils/jwt]: the decoded payload, or [None] where
    [jwt.verify] throws. *)
Variable Payload : Type.
Variable verifyToken : string -> option Payload.

(** The middleware either answers itself or calls [next()] with the payload
    put on the request. *)
Inductive Auth : Type :=
| Rejected (r : Response)
| Passed (user : Payload).

(** [authenticateToken]; [authorization] is the header, if sent. *)
Definition authenticateToken (authorization : option string) : Auth :=
  let token :=
    match authorization with
    | Some authHeader => nth_error (split_space authHeader) 1
    | None => None
    end in
  if truthy token then
    match verifyToken (default "" token) with
    | Some user => Passed user
    | None => Rejected (mkResp 403 (JError "Invalid or expired token."))
    end
  else Rejected (mkResp 401 (JError "No token provided.")).

(** *** The two routers *)

Inductive AuthRequest : Type :=
| ReqRegister (name email pw : string) (now : Z)
| ReqLogin (email pw : string).

Inductive UsersRequest : Type :=
| ReqList
| ReqGet (userId : Z)
| ReqCreate (name email pw : string) (role : option string) (now : Z)
| ReqUpdate (userId : Z) (name email role : option string)
| ReqDelete (userId : Z).

Definition auth_route (req : AuthRequest) : M Response :=
  match req with
  | ReqRegister name email pw now => register name email pw now
  | ReqLogin email pw => login email pw
  end.

Definition users_route (req : UsersRequest) : M Response :=
  match req with
  | ReqList => get_users
  | ReqGet userId => get_user userId
  | ReqCreate name email pw role now => post_user name email pw role now
  | ReqUpdate userId name email role => put_user userId name email role
  | ReqDelete userId => delete_user userId
  end.

(** [router.use(authenticateToken)] in front of every user route. *)
Definition users_router (authorization : option string) (req : UsersRequest)
  : M Response :=
  match authenticateToken authorization with
  | Rejected r => ret r
  | Passed _ => users_route req
  end.

(** A request to the application: [/api/auth] or [/api/users]. *)
Inductive Request : Type :=
| ToAuth (req : AuthRequest)
| ToUsers (authorization : option string) (req : UsersRequest).

Definition app (req : Request) : M Response :=
  match req with
  | ToAuth r => auth_route r
  | ToUsers authorization r => users_router authorization r
  end.

(** The store after a sequence of requests. *)
Fixpoint serve (reqs : list Request) (s : Store) : Store :=
  match reqs with
  | [] => s
  | req :: reqs' => serve reqs' (snd (app req s))
  end.

(** The answers to a sequence of requests. *)
Fixpoint answers (reqs : list Request) (s : Store) : list (Result Response) :=
  match reqs with
  | [] => []
  | req :: reqs' => fst (app req s) :: answers reqs' (snd (app req s))
  end.

(** What the [isEmail] validator of [PUT /:id] guarantees of a request that
    reaches the handler, as far as the store is concerned: an email, when
    sent, is not the empty string. *)
Definition update_email_nonempty (req : Request) : Prop :=
  match req with
  | ToUsers _ (ReqUpdate _ _ (Some e) _) => e <> EmptyString
  | _ => True
  end.

(** Methods that only read the store. *)
Definition is_query (op : Op) : bool :=
  match op with
  | OpGetUsers | OpGetUserById _ | OpGetUserByEmail _
  | OpVerifyCredentials _ _ => true
  | _ => false
  end.

(** The stored form of a record: an identity handed out before, a password
    hash and a creation time. *)
Definition stored_form (s : Store) (u : User) : Prop :=
  1 <= id u < idCounter s /\ password u <> None /\ createdAt u <> None.

(** The [PUT] handler answers 409 exactly in this case: an email is sent, it
    is not empty, it is not the record's own, and some record has it. *)
Definition email_conflict (e : option string) (u : User) (s : Store) : bool :=
  match e with
  | Some e' =>
      negb (String.eqb e' "") && negb (String.eqb e' (email u)) &&
      match find (fun x => String.eqb (email x) e') (users s) with
      | Some _ => true
      | None => false
      end
  | None => false
  end.

(** The user records a response body carries. *)
Definition body_users (b : Body) : list User :=
  match b with
  | JUser u => [u]
  | JUsers l => l
  | _ => []
  end.

(** A text without a space. *)
Fixpoint no_space (s : string) : bool :=
  match s with
  | EmptyString => true
  | String c s' => negb (Ascii.eqb c " ") && no_space s'
  end.

(** Every record is in stored form and there are fewer records than the
    counter's value. *)
Definition stored_inv (s : Store) : Prop :=
  Forall (stored_form s) (users s) /\
  Z.of_nat (length (users s)) <= idCounter s - 1.

End Service.

End Backend.

(** ** Client: the list component [UsersComponent] *)

Module Client.

Inductive SortDirection : Type := asc | desc.

Record SortState := mkSort {
  field : string;
  direction : SortDirection
}.

(** A [createdAt] value: a [Date] object (its time value, [None] for an
    invalid date) or the text a JSON response carries. *)
Inductive Created : Type :=
| CDate (t : option Z)
| CText (s : string).

(** Modelled from the spec: [models/user.model], the client's [User]
    interface, is not among the sources.  The fields are those of the spec's
    user record as the component and its tests use them: identity, name,
    email, optional role, created time stamp. *)
Record User := mkUser {
  id : Z;
  name : string;
  email : string;
  role : option string;
  createdAt : option Created
}.

(** The JavaScript values a property of a [User] can hold. *)
Inductive value : Type :=
| VUndefined
| VNumber (n : Z)
| VString (s : string)
| VDate (t : option Z).

(** [a[field as keyof User]]; a property the object lacks reads as
    [undefined]. *)
Definition getField (f : string) (u : User) : value :=
  if String.eqb f "id" then VNumber (id u)
  else if String.eqb f "name" then VString (name u)
  else if String.eqb f "email" then VString (email u)
  else if String.eqb f "role" then
    match role u with Some r => VString r | None => VUndefined end
  else if String.eqb f "createdAt" then
    match createdAt u with
    | Some (CDate t) => VDate t
    | Some (CText s) => VString s
    | None => VUndefined
    end
  else VUndefined.

(** *** Strings

    [toLowerCase], [trim] and [includes] on ASCII text; bytes above 127 are
    left as they are. *)

Definition lower_ascii (c : ascii) : ascii :=
  let n := N_of_ascii c in
  if ((65 <=? n) && (n <=? 90))%N then ascii_of_N (n + 32) else c.

Fixpoint toLowerCase (s : string) : string :=
  match s with
  | EmptyString => EmptyString
  | String c s' => String (lower_ascii c) (toLowerCase s')
  end.

Definition is_white (c : ascii) : bool :=
  let n := N_of_ascii c in
  (((9 <=? n) && (n <=? 13)) || (n =? 32))%N.

Fixpoint trimStart (s : string) : string :=
  match s with
  | EmptyString => EmptyString
  | String c s' => if is_white c then trimStart s' else s
  end.

Definition trim (s : string) : string :=
  String.rev (trimStart (String.rev (trimStart s))).

Fixpoint includes (s pat : string) : bool :=
  if String.prefix pat s then true
  else match s with
       | EmptyString => false
       | String _ s' => includes s' pat
       end.

Definition nonempty (s : string) : bool := negb (String.eqb s "").

(** *** Arrays held by reference *)

Abbreviation loc := nat.
Abbreviation heap := (list (list User)).

(** Computations on the heap of arrays. *)
Definition H (A : Type) : Type := heap -> A * heap.

Definition ret {A} (a : A) : H A := fun h => (a, h).
Definition bind {A B} (m : H A) (k : A -> H B) : H B :=
  fun h => let (a, h') := m h in k a h'.

Notation "'let*' x ':=' m 'in' k" := (bind m (fun x => k))
  (at level 10, x name, m at level 100, k at level 200).

Definition deref (h : heap) (l : loc) : list User := default [] (h !! l).

(** A new array object. *)
Definition alloc (arr : list User) : H loc :=
  fun h => (length h, h ++ [arr]).

Definition read (l : loc) : H (list User) := fun h => (deref h l, h).

(** Overwrite the elements of an existing array object. *)
Definition write (l : loc) (arr : list User) : H unit :=
  fun h => (tt, <[l := arr]> h).

(** [[...a]]. *)
Definition spread (l : loc) : H loc :=
  let* arr := read l in alloc arr.

(** [a.filter(p)]. *)
Definition array_filter (p : User -> bool) (l : loc) : H loc :=
  let* arr := read l in alloc (List.filter p arr).

(** [a.slice(0, n)]: a negative [n] counts from the end. *)
Definition slice_to (n : Z) (arr : list User) : list User :=
  if n <? 0 then firstn (Z.to_nat (Z.of_nat (length arr) + n)) arr
  else firstn (Z.to_nat n) arr.

Definition array_slice (n : Z) (l : loc) : H loc :=
  let* arr := read l in alloc (slice_to n arr).

(** [Array.prototype.sort] with a comparator: stable, an element [x] stays
    before [y] unless the comparator puts [y] first.  For a consistent
    comparator every conforming engine returns this list; for an
    inconsistent one ECMAScript leaves the order to the engine and this is
    one admissible choice. *)
Fixpoint sort_insert {A} (cmp : A -> A -> Z) (x : A) (l : list A) : list A :=
  match l with
  | [] => [x]
  | y :: l' => if cmp x y <=? 0 then x :: y :: l' else y :: sort_insert cmp x l'
  end.

Fixpoint js_sort {A} (cmp : A -> A -> Z) (l : list A) : list A :=
  match l with
  | [] => []
  | x :: l' => sort_insert cmp x (js_sort cmp l')
  end.

(** [a.sort(cmp)] sorts the array object itself and returns it. *)
Definition array_sort (cmp : User -> User -> Z) (l : loc) : H loc :=
  let* arr := read l in
  let* _ := write l (js_sort cmp arr) in
  ret l.

(** *** The component *)

Record Component := mkComponent {
  limit : option Z;
  users : loc;
  allUsers : loc;
  loading : bool;
  error : option string;
  filterText : string;
  currentSort : SortState
}.

Definition set_users (l : loc) (c : Component) : Component :=
  mkComponent (limit c) l (allUsers c) (loading c) (error c) (filterText c)
              (currentSort c).
Definition set_allUsers (l : loc) (c : Component) : Component :=
  mkComponent (limit c) (users c) l (loading c) (error c) (filterText c)
              (currentSort c).
Definition set_loading (b : bool) (c : Component) : Component :=
  mkComponent (limit c) (users c) (allUsers c) b (error c) (filterText c)
              (currentSort c).
Definition set_error (e : option string) (c : Component) : Component :=
  mkComponent (limit c) (users c) (allUsers c) (loading c) e (filterText c)
              (currentSort c).
Definition set_filterText (t : string) (c : Component) : Component :=
  mkComponent (limit c) (users c) (allUsers c) (loading c) (error c) t
              (currentSort c).
Definition set_currentSort (st : SortState) (c : Component) : Component :=
  mkComponent (limit c) (users c) (allUsers c) (loading c) (error c)
              (filterText c) st.

(** [if (this.limit)]: neither [null] nor [0]. *)
Definition limit_set (c : Component) : option Z :=
  match limit c with
  | Some n => if n =? 0 then None else Some n
  | None => None
  end.

(** [if (this.limit) { this.users = this.users.slice(0, this.limit) }]. *)
Definition apply_limit (c : Component) : H Component :=
  match limit_set c with
  | Some n => let* sl := array_slice n (users c) in ret (set_users sl c)
  | None => ret c
  end.

(** The cap as a function on lists. *)
Definition cap_list (c : Component) (l : list User) : list User :=
  match limit_set c with
  | Some n => slice_to n l
  | None => l
  end.

Section Pipeline.

(** [String.prototype.localeCompare] and the text parser of [new Date(s)]
    ([None] for an invalid date). *)
Variable localeCompare : string -> string -> Z.
Variable parseDate : string -> option Z.

(** [v instanceof Date ? v : new Date(v as string)], on a value that is not
    [undefined]. *)
Definition toDate (v : value) : value :=
  match v with
  | VDate t => VDate t
  | VString s => VDate (parseDate s)
  | VNumber n => VDate (Some n)
  | VUndefined => VDate None
  end.

(** The number the relational operators compare; [None] is [NaN]. *)
Definition toNumber (v : value) : option Z :=
  match v with
  | VNumber n => Some n
  | VDate t => t
  | _ => None
  end.

(** [a < b] where the comparator reaches it: on two numbers or two dates. *)
Definition js_lt (a b : value) : bool :=
  match toNumber a, toNumber b with
  | Some x, Some y => x <? y
  | _, _ => false
  end.

(** The comparator of [applySorting]. *)
Definition compareUsers (f : string) (d : SortDirection) (a b : User) : Z :=
  let valueA := getField f a in
  let valueB := getField f b in
  match valueA, valueB with
  | VUndefined, _ => match d with asc => -1 | desc => 1 end
  | _, VUndefined => match d with asc => 1 | desc => -1 end
  | _, _ =>
      let valueA := if String.eqb f "createdAt" then toDate valueA else valueA in
      let valueB := if String.eqb f "createdAt" then toDate valueB else valueB in
      match valueA, valueB with
      | VString sa, VString sb =>
          match d with
          | asc => localeCompare sa sb
          | desc => localeCompare sb sa
          end
      | _, _ =>
          match d with
          | asc => if js_lt valueA valueB then -1
                   else if js_lt valueB valueA then 1 else 0
          | desc => if js_lt valueB valueA then -1
                    else if js_lt valueA valueB then 1 else 0
          end
      end
  end.

(** [return [...data].sort(cmp)]. *)
Definition applySorting (data : loc) (f : string) (d : SortDirection) : H loc :=
  let* copy := spread data in
  array_sort (compareUsers f d) copy.

Definition next_direction (f : string) (d : option SortDirection)
  (cur : SortState) : SortDirection :=
  match d with
  | Some d => d
  | None =>
      if String.eqb f (field cur) &&
         match direction cur with asc => true | desc => false end
      then desc else asc
  end.

Definition sortUsers (f : string) (d : option SortDirection) (c : Component)
  : H Component :=
  let d := next_direction f d (currentSort c) in
  let c := set_currentSort (mkSort f d) c in
  let* dataToSort :=
    (if nonempty (filterText c) then ret (users c) else spread (allUsers c)) in
  let* sorted := applySorting dataToSort f d in
  apply_limit (set_users sorted c).

(** The predicate of [filterUsers]. *)
Definition matches (text : string) (u : User) : bool :=
  includes (toLowerCase (name u)) text ||
  includes (toLowerCase (email u)) text ||
  match role u with
  | Some r => nonempty r && includes (toLowerCase r) text
  | None => false
  end.

Definition filterUsers (text : string) (c : Component) : H Component :=
  let c := set_filterText (trim (toLowerCase text)) c in
  if negb (nonempty (filterText c)) then
    sortUsers (field (currentSort c)) (Some (direction (currentSort c))) c
  else
    let* filtered := array_filter (matches (filterText c)) (allUsers c) in
    let* sorted :=
      applySorting filtered (field (currentSort c)) (direction (currentSort c)) in
    apply_limit (set_users sorted c).

(** What the subscription of [getUsers] receives: the fetched array, or an
    error. *)
Inductive Outcome : Type :=
| Next (data : loc)
| Failed (err : string).

Definition getUsers (o : Outcome) (c : Component) : H Component :=
  let c := set_error None (set_loading true c) in
  match o with
  | Next data =>
      let c := set_allUsers data c in
      let* c := sortUsers (field (currentSort c))
                          (Some (direction (currentSort c))) c in
      ret (set_loading false c)
  | Failed _ =>
      let c :=
        set_error (Some "Failed to load users. Please try again later.") c in
      ret (set_loading false c)
  end.

(** The displayed list and the cached full set, as lists. *)
Definition displayed (c : Component) (h : heap) : list User := deref h (users c).
Definition cached (c : Component) (h : heap) : list User := deref h (allUsers c).

(** What the pipeline is meant to show: filter, then sort, then cap. *)
Definition spec_filter_sort_cap (all : list User) (text : string) (st : SortState)
  (cap : Z) : list User :=
  slice_to cap
    (js_sort (compareUsers (field st) (direction st))
       (if nonempty text then List.filter (matches text) all else all)).

End Pipeline.

(** What a sort or filter step leaves behind: the displayed list is [shown],
    it sits in an array allocated by the step, the heap has only grown, and
    no field but [users], [filterText] and [currentSort] has moved. *)
Definition step_result (c : Component) (h : heap) (text : string)
  (st : SortState) (shown : list User) (r : Component * heap) : Prop :=
  let (c', h') := r in
  displayed c' h' = shown /\
  (exists k, h' = h ++ k) /\
  (length h <= users c' < length h')%nat /\
  allUsers c' = allUsers c /\
  limit c' = limit c /\
  loading c' = loading c /\
  error c' = error c /\
  filterText c' = text /\
  currentSort c' = st.

(** Both array references of the component point into the heap. *)
Definition well_formed (c : Component) (h : heap) : Prop :=
  (users c < length h)%nat /\ (allUsers c < length h)%nat.

(** The cached full set after a step: the same array object, with the same
    elements in the same order; the displayed list is another array; and
    every array that existed before the step is as it was. *)
Definition cache_kept (c : Component) (h : heap) (r : Component * heap) : Prop :=
  let (c', h') := r in
  allUsers c' = allUsers c /\
  cached c' h' = cached c h /\
  users c' <> allUsers c' /\
  (forall l : loc, (l < length h)%nat -> deref h' l = deref h l).

(** [pat] occurs in [s]. *)
Definition substring_of (pat s : string) : Prop :=
  exists pre post, s = pre +:+ pat +:+ post.

(** The length a cap leaves of a list of length [len]. *)
Definition capped_length (lim : option Z) (len : Z) : Z :=
  match lim with
  | None => len
  | Some n =>
      if n =? 0 then len
      else if n <? 0 then Z.max 0 (len + n)
      else Z.min n len
  end.

(** [getSortIcon]. *)
Definition getSortIcon (f : string) (c : Component) : string :=
  if negb (String.eqb f (field (currentSort c))) then "sort"
  else match direction (currentSort c) with
       | asc => "arrow_upward"
       | desc => "arrow_downward"
       end.

(** The time value a defined [createdAt] property is compared by. *)
Definition created_time (parseDate : string -> option Z) (u : User) : option Z :=
  match createdAt u with
  | Some (CDate t) => t
  | Some (CText s) => parseDate s
  | None => None
  end.

(** A component as constructed: two distinct empty arrays, sorted by name
    ascending. *)
Definition new_component (lim : option Z) : H Component :=
  let* u := alloc [] in
  let* a := alloc [] in
  ret (mkComponent lim u a false None "" (mkSort "name" asc)).

End Client.

(** ** Sample collaborators, for evaluating the model on concrete inputs *)

Definition sample_hash (pw : string) : string := String.append "$2b$10$" pw.

Definition sample_compare (pw h : string) : bool := String.eqb (sample_hash pw) h.

Definition sample_token (u : Backend.User) : string :=
  String.append "jwt:" (Backend.email u).

(** Code-unit order; on words that differ at a letter of the same case it
    agrees with [localeCompare]. *)
Definition sample_collate (a b : string) : Z :=
  match String.compare a b with
  | Lt => -1
  | Eq => 0
  | Gt => 1
  end.

Definition sample_parseDate (s : string) : option Z := None.

(** Accepts exactly the tokens [sample_token] makes; the payload is the
    email. *)
Definition sample_verify (t : string) : option string :=
  if String.prefix "jwt:" t then Some (String.substring 4 (String.length t - 4) t)
  else None.

Definition alice : Backend.UserCreateDTO :=
  Backend.mkCreate "Alice" "alice@example.com" "password1" None.

Definition bob : Backend.UserCreateDTO :=
  Backend.mkCreate "Bob" "bob@example.com" "password2" (Some "User").

(** The store after creating Alice and Bob. *)
Definition two_users : Backend.Store :=
  Backend.exec sample_hash sample_compare
    [Backend.OpCreateUser alice 0; Backend.OpCreateUser bob 1] Backend.init.

(** Register Alice; with her token create Bob, try to give Bob her email,
    and list; then try to delete her without a token. *)
Definition sample_session : list Backend.Request :=
  [ Backend.ToAuth
      (Backend.ReqRegister "Alice" "alice@example.com" "password1" 0);
    Backend.ToUsers (Some "Bearer jwt:alice@example.com")
      (Backend.ReqCreate "Bob" "bob@example.com" "password2" (Some "User") 1);
    Backend.ToUsers (Some "Bearer jwt:alice@example.com")
      (Backend.ReqUpdate 2 None (Some "alice@example.com") None);
    Backend.ToUsers (Some "Token jwt:alice@example.com trailing")
      (Backend.ReqGet 2);
    Backend.ToUsers (Some "Bearer forged") (Backend.ReqDelete 1);
    Backend.ToUsers None (Backend.ReqDelete 1) ].

(** The two users of the component's test of undefined values. *)
Definition c_alice : Client.User :=
  Client.mkUser 1 "Alice" "alice@example.com" None
    (Some (Client.CDate (Some 1000))).

Definition c_bob : Client.User :=
  Client.mkUser 2 "Bob" "bob@example.com" (Some "User")
    (Some (Client.CDate (Some 2000))).

Definition u_ann : Client.User :=
  Client.mkUser 1 "Ann" "ann@example.com" (Some "User")
    (Some (Client.CDate (Some 1000))).

Definition u_ben : Client.User :=
  Client.mkUser 2 "Ben" "ben@example.com" (Some "User")
    (Some (Client.CDate (Some 2000))).

Definition u_cat : Client.User :=
  Client.mkUser 3 "Cat" "cat@example.com" (Some "User")
    (Some (Client.CDate (Some 3000))).

Definition u_dan : Client.User :=
  Client.mkUser 4 "Dan" "dan@example.com" (Some "Admin")
    (Some (Client.CDate (Some 4000))).

(** A component with a cap of two and no filter, over a heap that holds the
    display, the full set and a fetched array. *)
Definition sample_component : Client.Component :=
  Client.mkComponent (Some 2) 0%nat 1%nat false None ""
    (Client.mkSort "name" Client.asc).

Definition sample_heap : list (list Client.User) :=
  [[]; [u_ben; u_ann; u_dan]; [u_cat; u_ann]].

(** The four users of the component's test suite. *)
Definition mockUsers : list Client.User :=
  [ Client.mkUser 1 "Alice Johnson" "alice@example.com" (Some "Admin")
      (Some (Client.CDate (Some 15)));
    Client.mkUser 2 "Bob Smith" "bob@example.com" (Some "User")
      (Some (Client.CDate (Some 51)));
    Client.mkUser 3 "Carol Williams" "carol@example.com" (Some "Editor")
      (Some (Client.CDate (Some 69)));
    Client.mkUser 4 "Dave Brown" "dave@example.com" (Some "User")
      (Some (Client.CDate (Some 95))) ].

(** A new component with the given cap, after a successful fetch of
    [data]. *)
Definition loaded (lim : option Z) (data : list Client.User)
  : Client.H Client.Component :=
  Client.bind (Client.new_component lim) (fun c =>
  Client.bind (Client.alloc data) (fun d =>
  Client.getUsers sample_collate sample_parseDate (Client.Next d) c)).

(** A component with a cap of two: fetch four users, filter by "user", then
    ask for a sort by name without a direction. *)
Definition capped_filter_then_sort : Client.H Client.Component :=
  Client.bind (loaded (Some 2) [u_ann; u_ben; u_cat; u_dan]) (fun c =>
  Client.bind (Client.filterUsers sample_collate sample_parseDate "user" c)
    (fun c =>
  Client.sortUsers sample_collate sample_parseDate "name" None c)).

(** ** Facts about the backend *)

Section BackendFacts.

Import Backend.

Variable bcrypt_hash : string -> string.
Variable bcrypt_compare : string -> string -> bool.
Variable generateToken : User -> string.

Lemma findIndex_spec {A} (p : A -> bool) (l : list A) :
  match find p l with
  | None => findIndex p l = -1
  | Some x =>
      exists k : nat,
        findIndex p l = Z.of_nat k /\ l !! k = Some x /\ p x = true /\
        (forall (j : nat) y, (j < k)%nat -> l !! j = Some y -> p y = false)
  end.
Proof.
  induction l as [|a l IH]; simpl; [reflexivity|].
  destruct (p a) eqn:Hpa.
  - exists 0%nat. repeat split; auto. intros j y Hj. lia.
  - destruct (find p l) as [x|].
    + destruct IH as (k & Hk & Hl & Hpx & Hmin).
      exists (S k). rewrite Hk.
      replace (Z.of_nat k =? -1) with false by (symmetry; apply Z.eqb_neq; lia).
      repeat split; auto; [lia|].
      intros [|j] y Hj Hy; simpl in Hy.
      * congruence.
      * eapply Hmin; [|eassumption]. lia.
    + rewrite IH. reflexivity.
Qed.

Lemma sanitize_no_password (u : User) : password (sanitizeUser u) = None.
Proof. reflexivity. Qed.

Lemma Forall_sanitized (l : list User) :
  Forall (fun u => password u = None) (map sanitizeUser l).
Proof. induction l; simpl; constructor; auto. Qed.

(** Outcome of [updateUser], by whether the id is in the store. *)
Lemma updateUser_eq (i : Z) (d : UserUpdateDTO) (s : Store) :
  match find (fun u => id u =? i) (users s) with
  | None => updateUser i d s = (Throw "Failed to update user", s)
  | Some u =>
      exists k : nat,
        users s !! k = Some u /\ id u = i /\
        (forall (j : nat) y, (j < k)%nat -> users s !! j = Some y -> id y <> i) /\
        updateUser i d s =
          (Ok (sanitizeUser (apply_update d u)),
           mkStore (<[k := apply_update d u]> (users s)) (idCounter s))
  end.
Proof.
  pose proof (findIndex_spec (fun u => id u =? i) (users s)) as Hf.
  unfold updateUser, try_catch, bind, get, throw, put, ret.
  destruct (find _ (users s)) as [u|].
  - destruct Hf as (k & Hk & Hl & Hp & Hmin).
    exists k. rewrite Hk.
    replace (Z.of_nat k =? -1) with false by (symmetry; apply Z.eqb_neq; lia).
    rewrite Nat2Z.id, Hl. apply Z.eqb_eq in Hp.
    repeat split; auto.
    intros j y Hj Hy. specialize (Hmin j y Hj Hy). apply Z.eqb_neq in Hmin. exact Hmin.
  - rewrite Hf. reflexivity.
Qed.

Lemma apply_update_id d u : id (apply_update d u) = id u.
Proof. destruct d as [[?|] [?|] [?|]]; reflexivity. Qed.

Lemma apply_update_password d u : password (apply_update d u) = password u.
Proof. destruct d as [[?|] [?|] [?|]]; reflexivity. Qed.

Lemma apply_update_createdAt d u : createdAt (apply_update d u) = createdAt u.
Proof. destruct d as [[?|] [?|] [?|]]; reflexivity. Qed.

Lemma getUserById_eq (i : Z) (s : Store) :
  getUserById i s =
    (Ok (option_map sanitizeUser (find (fun u => id u =? i) (users s))), s).
Proof. reflexivity. Qed.

Lemma getUserByEmail_eq (e : string) (s : Store) :
  getUserByEmail e s =
    (Ok (option_map sanitizeUser
           (find (fun u => String.eqb (email u) e) (users s))), s).
Proof. reflexivity. Qed.

(** C1: every record that a [UserService] method returns, alone or in a
    list, has no [password] property, whatever the state of the store. *)
Theorem C1_returned_records_sanitized (op : Op) (s : Store) :
  Forall (fun u => password u = None)
    (returned_records (fst (run_op bcrypt_hash bcrypt_compare op s))).
Proof.
  destruct op as [|i|e|d now|i d|i|e pw]; unfold run_op, bind.
  - apply Forall_sanitized.
  - rewrite getUserById_eq. destruct (find _ _); simpl; auto.
  - rewrite getUserByEmail_eq. destruct (find _ _); simpl; auto.
  - repeat constructor.
  - pose proof (updateUser_eq i d s) as Hu.
    destruct (find _ (users s)).
    + destruct Hu as (k & _ & _ & _ & ->). simpl.
      constructor; [apply sanitize_no_password | constructor].
    + rewrite Hu. simpl. constructor.
  - destruct (deleteUser i s) as [[b|m] s']; simpl; constructor.
  - unfold verifyCredentials, try_catch, bind, get, ret.
    destruct (find _ (users s)) as [u|]; simpl; [|constructor].
    destruct (truthy (password u)); simpl; [|constructor].
    destruct (bcrypt_compare _ _); simpl; repeat constructor.
Qed.

(** *** Identity allocation *)

Lemma createUser_eq (d : UserCreateDTO) (now : Z) (s : Store) :
  createUser bcrypt_hash d now s =
    (Ok (sanitizeUser
           (mkUser (idCounter s) (c_name d) (c_email d) (c_role d) (Some now)
                   (Some (bcrypt_hash (c_password d))))),
     mkStore
       (users s ++
        [mkUser (idCounter s) (c_name d) (c_email d) (c_role d) (Some now)
                (Some (bcrypt_hash (c_password d)))])
       (idCounter s + 1)).
Proof. reflexivity. Qed.

Lemma deleteUser_eq (i : Z) (s : Store) :
  match find (fun u => id u =? i) (users s) with
  | None => deleteUser i s = (Throw "Failed to delete user", s)
  | Some u =>
      exists k : nat,
        users s !! k = Some u /\
        deleteUser i s = (Ok true, mkStore (delete k (users s)) (idCounter s))
  end.
Proof.
  pose proof (findIndex_spec (fun u => id u =? i) (users s)) as Hf.
  unfold deleteUser, try_catch, bind, get, throw, put, ret.
  destruct (find _ (users s)) as [u|].
  - destruct Hf as (k & Hk & Hl & _).
    exists k. rewrite Hk.
    replace (Z.of_nat k =? -1) with false by (symmetry; apply Z.eqb_neq; lia).
    unfold splice1. rewrite Nat2Z.id, <- delete_take_drop. auto.
  - rewrite Hf. reflexivity.
Qed.

Lemma map_id_insert (l : list User) (k : nat) (u u' : User) :
  l !! k = Some u -> id u' = id u -> map id (<[k := u']> l) = map id l.
Proof.
  revert k. induction l as [|a l IH]; intros [|k] Hl Hid; simpl in *;
    try discriminate; auto.
  - injection Hl as ->. congruence.
  - f_equal. eauto.
Qed.

Lemma map_id_delete (l : list User) (k : nat) :
  map id (delete k l) = delete k (map id l).
Proof.
  revert k. induction l as [|a l IH]; intros [|k]; simpl; auto.
  f_equal. apply IH.
Qed.

(** Only [createUser] moves the counter, and by one. *)
Lemma run_op_counter (op : Op) (s : Store) :
  idCounter (snd (run_op bcrypt_hash bcrypt_compare op s)) =
    match op with
    | OpCreateUser _ _ => idCounter s + 1
    | _ => idCounter s
    end.
Proof.
  destruct op as [|i|e|d now|i d|i|e pw]; unfold run_op, bind.
  - reflexivity.
  - rewrite getUserById_eq. reflexivity.
  - rewrite getUserByEmail_eq. reflexivity.
  - rewrite createUser_eq. reflexivity.
  - pose proof (updateUser_eq i d s) as Hu.
    destruct (find _ (users s)).
    + destruct Hu as (k & _ & _ & _ & ->). reflexivity.
    + rewrite Hu. reflexivity.
  - pose proof (deleteUser_eq i s) as Hd.
    destruct (find _ (users s)).
    + destruct Hd as (k & _ & ->). reflexivity.
    + rewrite Hd. reflexivity.
  - unfold verifyCredentials, try_catch, bind, get, ret.
    destruct (find _ (users s)) as [u|]; simpl; [|reflexivity].
    destruct (truthy (password u)); simpl; [|reflexivity].
    destruct (bcrypt_compare _ _); reflexivity.
Qed.

Lemma run_op_store_ok (op : Op) (s : Store) :
  store_ok s -> store_ok (snd (run_op bcrypt_hash bcrypt_compare op s)).
Proof.
  intros [Hlt Hnd].
  destruct op as [|i|e|d now|i d|i|e pw]; unfold run_op, bind.
  - split; assumption.
  - rewrite getUserById_eq. split; assumption.
  - rewrite getUserByEmail_eq. split; assumption.
  - rewrite createUser_eq. unfold store_ok; simpl. split.
    + apply Forall_app. split.
      * eapply Forall_impl; [exact Hlt|]. simpl. intros; lia.
      * repeat constructor. simpl. lia.
    + rewrite map_app. apply NoDup_app. repeat split; auto.
      * intros x Hx Hin. simpl in Hin. apply list_elem_of_singleton in Hin.
        subst x. apply list_elem_of_In, in_map_iff in Hx.
        destruct Hx as (u & Hu & Hin).
        rewrite List.Forall_forall in Hlt. specialize (Hlt u Hin). simpl in Hlt. lia.
      * simpl. apply NoDup_singleton.
  - pose proof (updateUser_eq i d s) as Hu.
    destruct (find _ (users s)) as [u|].
    + destruct Hu as (k & Hl & _ & _ & ->). unfold store_ok; simpl. split.
      * apply Forall_insert; auto. rewrite apply_update_id.
        eapply Forall_lookup_1 in Hlt; [|exact Hl]. exact Hlt.
      * erewrite map_id_insert; eauto. apply apply_update_id.
    + rewrite Hu. split; assumption.
  - pose proof (deleteUser_eq i s) as Hd.
    destruct (find _ (users s)) as [u|].
    + destruct Hd as (k & Hl & ->). unfold store_ok; simpl. split.
      * apply Forall_delete. exact Hlt.
      * rewrite map_id_delete. eapply sublist_NoDup; [exact Hnd|apply sublist_delete].
    + rewrite Hd. split; assumption.
  - unfold verifyCredentials, try_catch, bind, get, ret.
    destruct (find _ (users s)) as [u|]; simpl; [|split; assumption].
    destruct (truthy (password u)); simpl; [|split; assumption].
    destruct (bcrypt_compare _ _); split; assumption.
Qed.

Lemma init_store_ok : store_ok init.
Proof. split; constructor. Qed.

Lemma exec_store_ok (ops : list Op) (s : Store) :
  store_ok s -> store_ok (exec bcrypt_hash bcrypt_compare ops s).
Proof.
  revert s. induction ops as [|op ops IH]; intros s Hs; simpl; auto.
  apply IH, run_op_store_ok, Hs.
Qed.

(** The identities assigned from a state on start at its counter and go up. *)
Lemma assigned_ids_from (ops : list Op) (s : Store) :
  Forall (fun i => idCounter s <= i)
    (assigned_ids (trace bcrypt_hash bcrypt_compare ops s)) /\
  StronglySorted Z.lt (assigned_ids (trace bcrypt_hash bcrypt_compare ops s)).
Proof.
  revert s. induction ops as [|op ops IH]; intros s; simpl.
  - split; constructor.
  - pose proof (run_op_counter op s) as Hc.
    destruct (run_op bcrypt_hash bcrypt_compare op s) as [r s'] eqn:Hr.
    simpl in Hc. destruct (IH s') as [Hge Hss].
    assert (Hmono : Forall (fun i => idCounter s <= i)
              (assigned_ids (trace bcrypt_hash bcrypt_compare ops s'))).
    { eapply Forall_impl; [exact Hge|]. simpl. intros a Ha.
      destruct op; lia. }
    destruct op as [|i|e|d now|i d|i|e pw];
      try (simpl; split; assumption).
    unfold run_op, bind in Hr. rewrite createUser_eq in Hr.
    injection Hr as <- <-. simpl. split.
    + constructor; [lia | exact Hmono].
    + constructor; [exact Hss|].
      eapply Forall_impl; [exact Hge|]. simpl. intros a Ha. lia.
Qed.

Lemma StronglySorted_lt_NoDup (l : list Z) : StronglySorted Z.lt l -> NoDup l.
Proof.
  induction 1 as [|a l Hs IH Hall]; constructor; auto.
  intros Hin. apply list_elem_of_In in Hin.
  rewrite List.Forall_forall in Hall. specialize (Hall a Hin). lia.
Qed.

(** C2: along any sequence of service calls from the empty store, the
    identities assigned by [createUser] are strictly increasing, hence no
    identity is assigned twice, whether or not its record has been deleted
    in between; and the records in the store at the end have pairwise
    distinct identities. *)
Theorem C2_identities_strictly_increasing (ops : list Op) :
  StronglySorted Z.lt
    (assigned_ids (trace bcrypt_hash bcrypt_compare ops init)) /\
  NoDup (assigned_ids (trace bcrypt_hash bcrypt_compare ops init)) /\
  NoDup (map id (users (exec bcrypt_hash bcrypt_compare ops init))).
Proof.
  destruct (assigned_ids_from ops init) as [_ Hs].
  split; [exact Hs|]. split; [apply StronglySorted_lt_NoDup, Hs|].
  apply (exec_store_ok ops init init_store_ok).
Qed.

(** *** Login *)

(** C3: a login with a known email and a secret that does not match, and a
    login with an unknown email, are both answered with status 400 and the
    message 'Invalid credentials.', and leave the store as it was. *)
Theorem C3_login_uniform_rejection
  (s : Store) (e1 pw1 e2 pw2 : string) (u : User) (h : string)
  (Hknown : find (fun x => String.eqb (email x) e1) (users s) = Some u)
  (Hhash : password u = Some h)
  (Hwrong : bcrypt_compare pw1 h = false)
  (Hunknown : find (fun x => String.eqb (email x) e2) (users s) = None) :
  login bcrypt_compare generateToken e1 pw1 s =
    (Ok (mkResp 400 (JError "Invalid credentials.")), s) /\
  login bcrypt_compare generateToken e2 pw2 s =
    (Ok (mkResp 400 (JError "Invalid credentials.")), s).
Proof.
  unfold login, verifyCredentials, try_catch, bind, get, ret.
  rewrite Hknown, Hunknown, Hhash. simpl.
  rewrite Hwrong. destruct (String.eqb h ""); split; reflexivity.
Qed.

(** *** Update *)

Lemma put_user_absent (i : Z) (n e r : option string) (s : Store) :
  find (fun u => id u =? i) (users s) = None ->
  put_user i n e r s = (Ok (mkResp 404 (JError "User not found")), s).
Proof.
  intros Hf. unfold put_user, try_catch, bind.
  rewrite getUserById_eq, Hf. reflexivity.
Qed.

(** C4: [updateUser] on an id that is not in the store rejects with the
    error 'Failed to update user' and changes nothing; the answer 404
    'User not found' is the [PUT] handler's, from its own look-up.  On an id
    that is in the store, the first record with that id gets exactly the
    provided fields of name, email and role; its identity, creation time and
    password hash, every other record and the counter stay as they are; the
    sanitised updated record is returned. *)
Theorem C4_update_contract (i : Z) (d : UserUpdateDTO) (s : Store) :
  match find (fun u => id u =? i) (users s) with
  | None =>
      updateUser i d s = (Throw "Failed to update user", s) /\
      put_user i (u_name d) (u_email d) (u_role d) s =
        (Ok (mkResp 404 (JError "User not found")), s)
  | Some u =>
      exists (k : nat) (u' : User),
        users s !! k = Some u /\
        (forall (j : nat) y, (j < k)%nat -> users s !! j = Some y -> id y <> i) /\
        updateUser i d s =
          (Ok (sanitizeUser u'),
           mkStore (<[k := u']> (users s)) (idCounter s)) /\
        name u' = default (name u) (u_name d) /\
        email u' = default (email u) (u_email d) /\
        role u' = match u_role d with Some r => Some r | None => role u end /\
        id u' = id u /\
        createdAt u' = createdAt u /\
        password u' = password u
  end.
Proof.
  pose proof (updateUser_eq i d s) as Hu.
  destruct (find _ (users s)) as [u|] eqn:Hf.
  - destruct Hu as (k & Hl & _ & Hmin & Heq).
    exists k, (apply_update d u).
    split; [exact Hl|]. split; [exact Hmin|]. split; [exact Heq|].
    destruct d as [[?|] [?|] [?|]]; repeat split; reflexivity.
  - split; [exact Hu|]. apply put_user_absent, Hf.
Qed.

(** *** Email uniqueness *)

Lemma map_email_insert_same (l : list User) (k : nat) (u u' : User) :
  l !! k = Some u -> email u' = email u ->
  map email (<[k := u']> l) = map email l.
Proof.
  revert k. induction l as [|a l IH]; intros [|k] Hl He; simpl in *;
    try discriminate; auto.
  - injection Hl as ->. congruence.
  - f_equal. eauto.
Qed.

Lemma NoDup_map_email_insert (l : list User) (k : nat) (u' : User) :
  NoDup (map email l) -> email u' ∉ map email l ->
  NoDup (map email (<[k := u']> l)).
Proof.
  revert k. induction l as [|a l IH]; intros k Hnd Hnin; simpl; auto.
  simpl in Hnd, Hnin. apply NoDup_cons in Hnd. destruct Hnd as [Ha Hnd].
  apply not_elem_of_cons in Hnin. destruct Hnin as [Hne Hnin].
  destruct k as [|k]; simpl.
  - apply NoDup_cons. split; assumption.
  - apply NoDup_cons. split; [|apply IH; assumption].
    intros Hin. apply list_elem_of_In, in_map_iff in Hin.
    destruct Hin as (x & Hx & Hin).
    apply list_elem_of_In, list_elem_of_lookup in Hin. destruct Hin as [j Hj].
    apply list_lookup_insert_Some in Hj.
    destruct Hj as [(_ & <- & _)|(_ & Hj)].
    + congruence.
    + apply Ha. rewrite <- Hx. apply list_elem_of_In, in_map.
      apply list_elem_of_In, list_elem_of_lookup. eauto.
Qed.

Lemma find_email_None (e : string) (l : list User) :
  find (fun u => String.eqb (email u) e) l = None -> e ∉ map email l.
Proof.
  intros Hf Hin. apply list_elem_of_In, in_map_iff in Hin.
  destruct Hin as (u & He & Hin).
  eapply find_none in Hf; [|exact Hin]. simpl in Hf.
  apply String.eqb_neq in Hf. congruence.
Qed.

(** The pre-check of the [PUT] handler keeps the emails of the store
    pairwise distinct, for every request whose email is absent or not
    empty. *)
Lemma put_user_keeps_emails_distinct (i : Z) (n e r : option string) (s : Store) :
  e <> Some "" ->
  NoDup (map email (users s)) ->
  NoDup (map email (users (snd (put_user i n e r s)))).
Proof.
  intros He Hnd. unfold put_user, try_catch, bind.
  rewrite getUserById_eq.
  pose proof (updateUser_eq i (mkUpdate n e r) s) as Hu.
  destruct (find (fun u => id u =? i) (users s)) as [u|]; simpl; [|exact Hnd].
  destruct Hu as (k & Hl & _ & _ & Hu).
  destruct e as [e'|]; simpl.
  - assert (Hne : String.eqb e' "" = false).
    { apply String.eqb_neq. congruence. }
    rewrite Hne. simpl.
    destruct (String.eqb e' (email u)) eqn:Hsame; simpl.
    + unfold ret. rewrite Hu. simpl.
      apply String.eqb_eq in Hsame.
      erewrite map_email_insert_same; eauto.
      destruct n, r; simpl; congruence.
    + destruct (find (fun x => String.eqb (email x) e') (users s)) eqn:Hf;
        simpl; [exact Hnd|].
      unfold ret. rewrite Hu. simpl.
      apply NoDup_map_email_insert; [exact Hnd|].
      replace (email (apply_update (mkUpdate n (Some e') r) u)) with e'
        by (destruct n, r; reflexivity).
      apply find_email_None, Hf.
  - unfold ret. rewrite Hu. simpl.
    erewrite map_email_insert_same; eauto.
    destruct n, r; reflexivity.
Qed.

(** C10: after creating two users with different emails, [updateUser] on the
    second with the email of the first succeeds and leaves two records with
    the same email in the store; the [PUT] handler refuses the same request
    with 409 and leaves the store alone. *)
Theorem C10_service_update_ignores_email_uniqueness :
  let s := exec bcrypt_hash bcrypt_compare
             [OpCreateUser alice 0; OpCreateUser bob 1] init in
  let d := mkUpdate None (Some "alice@example.com") None in
  map email (users s) = ["alice@example.com"; "bob@example.com"] /\
  exists (u' : User) (s' : Store),
    updateUser 2 d s = (Ok u', s') /\
    email u' = "alice@example.com" /\
    map id (users s') = [1; 2] /\
    map email (users s') = ["alice@example.com"; "alice@example.com"] /\
    put_user 2 (u_name d) (u_email d) (u_role d) s =
      (Ok (mkResp 409 (JError "Email already exists")), s).
Proof.
  simpl. split; [reflexivity|].
  eexists. eexists. split; [reflexivity|].
  repeat split; reflexivity.
Qed.

End BackendFacts.


(** *** The service on the inputs of its test suite *)

Example create_returns_sanitized_user :
  fst (Backend.createUser sample_hash alice 0 Backend.init) =
    Backend.Ok (Backend.mkUser 1 "Alice" "alice@example.com" None (Some 0) None).
Proof. reflexivity. Qed.

Example getUsers_after_two_creates :
  fst (Backend.getUsers
         (Backend.exec sample_hash sample_compare
            [Backend.OpCreateUser alice 0; Backend.OpCreateUser bob 1]
            Backend.init)) =
    Backend.Ok
      [Backend.mkUser 1 "Alice" "alice@example.com" None (Some 0) None;
       Backend.mkUser 2 "Bob" "bob@example.com" (Some "User") (Some 1) None].
Proof. reflexivity. Qed.

Example delete_then_list :
  Backend.trace sample_hash sample_compare
    [Backend.OpCreateUser alice 0; Backend.OpDeleteUser 1; Backend.OpGetUsers;
     Backend.OpDeleteUser 999; Backend.OpCreateUser bob 1] Backend.init =
  [(Backend.OpCreateUser alice 0,
    Backend.Ok (Backend.RUser
      (Backend.mkUser 1 "Alice" "alice@example.com" None (Some 0) None)));
   (Backend.OpDeleteUser 1, Backend.Ok (Backend.RBool true));
   (Backend.OpGetUsers, Backend.Ok (Backend.RList []));
   (Backend.OpDeleteUser 999, Backend.Throw "Failed to delete user");
   (Backend.OpCreateUser bob 1,
    Backend.Ok (Backend.RUser
      (Backend.mkUser 2 "Bob" "bob@example.com" (Some "User") (Some 1) None)))].
Proof. reflexivity. Qed.

(** Register, then log in with a wrong and with the right secret. *)
Example register_then_login :
  let s := snd (Backend.register sample_hash sample_token
                  "Alice" "alice@example.com" "password1" 0 Backend.init) in
  fst (Backend.login sample_compare sample_token
         "alice@example.com" "wrong" s) =
    Backend.Ok (Backend.mkResp 400 (Backend.JError "Invalid credentials.")) /\
  fst (Backend.login sample_compare sample_token
         "alice@example.com" "password1" s) =
    Backend.Ok (Backend.mkResp 200 (Backend.JToken "jwt:alice@example.com")).
Proof. split; reflexivity. Qed.

(** C4, counterexample: the specification lets [update] fail with NotFound
    on an absent id; on the empty store [updateUser 999] rejects with
    'Failed to update user', not with 'User not found'. *)
Lemma C4_update_absent_is_not_NotFound :
  find (fun u => Backend.id u =? 999) (Backend.users Backend.init) = None /\
  fst (Backend.updateUser 999 (Backend.mkUpdate (Some "Ghost") None None)
         Backend.init)
    = Backend.Throw "Failed to update user" /\
  fst (Backend.updateUser 999 (Backend.mkUpdate (Some "Ghost") None None)
         Backend.init)
    <> Backend.Throw "User not found".
Proof.
  split; [reflexivity|]. split; [reflexivity|]. simpl. discriminate.
Qed.

Lemma C3_login_uniform_rejection_witness :
  let s := Backend.exec sample_hash sample_compare
             [Backend.OpCreateUser alice 0] Backend.init in
  Backend.login sample_compare sample_token "alice@example.com" "wrong" s =
    (Backend.Ok (Backend.mkResp 400 (Backend.JError "Invalid credentials.")), s) /\
  Backend.login sample_compare sample_token "nobody@example.com" "password1" s =
    (Backend.Ok (Backend.mkResp 400 (Backend.JError "Invalid credentials.")), s).
Proof.
  exact (C3_login_uniform_rejection sample_compare sample_token
           (Backend.exec sample_hash sample_compare
              [Backend.OpCreateUser alice 0] Backend.init)
           "alice@example.com" "wrong" "nobody@example.com" "password1"
           (Backend.mkUser 1 "Alice" "alice@example.com" None (Some 0)
              (Some "$2b$10$password1"))
           "$2b$10$password1"
           eq_refl eq_refl eq_refl eq_refl).
Defined.

(** ** Facts about the list component *)

Section ClientFacts.

Import Client.

Variable localeCompare : string -> string -> Z.
Variable parseDate : string -> option Z.

Local Abbreviation compareUsers := (Client.compareUsers localeCompare parseDate).
Local Abbreviation applySorting := (Client.applySorting localeCompare parseDate).
Local Abbreviation sortUsers := (Client.sortUsers localeCompare parseDate).
Local Abbreviation filterUsers := (Client.filterUsers localeCompare parseDate).
Local Abbreviation getUsers := (Client.getUsers localeCompare parseDate).

(** *** The heap of arrays *)

Lemma deref_old (h k : heap) (l : loc) :
  (l < length h)%nat -> deref (h ++ k) l = deref h l.
Proof. intros Hl. unfold deref. rewrite lookup_app_l; auto. Qed.

Lemma deref_new (h : heap) (arr : list User) :
  deref (h ++ [arr]) (length h) = arr.
Proof. unfold deref. rewrite list_lookup_middle; auto. Qed.

Lemma insert_new (h : heap) (arr x : list User) :
  <[length h := x]> (h ++ [arr]) = h ++ [x].
Proof.
  rewrite insert_app_r_alt by lia. rewrite Nat.sub_diag. reflexivity.
Qed.

Lemma applySorting_eq (data : loc) (f : string) (d : SortDirection) (h : heap) :
  applySorting data f d h =
    (length h, h ++ [js_sort (compareUsers f d) (deref h data)]).
Proof.
  unfold Client.applySorting, spread, array_sort, bind, read, alloc, write, ret.
  rewrite deref_new, insert_new. reflexivity.
Qed.

Lemma apply_limit_eq (c : Component) (h : heap) :
  apply_limit c h =
    match limit_set c with
    | Some n => (set_users (length h) c, h ++ [slice_to n (deref h (users c))])
    | None => (c, h)
    end.
Proof.
  unfold apply_limit. destruct (limit_set c); reflexivity.
Qed.

Lemma limit_set_users (l : loc) (c : Component) :
  limit_set (set_users l c) = limit_set c.
Proof. reflexivity. Qed.

(** After sorting [data] into a new array and capping it. *)
Lemma sorted_then_capped (c : Component) (h0 h : heap) (data : loc)
  (f : string) (d : SortDirection) :
  (exists k, h = h0 ++ k) ->
  let (sorted, h1) := applySorting data f d h in
  step_result c h0 (filterText c) (currentSort c)
    (cap_list c (js_sort (compareUsers f d) (deref h data)))
    (apply_limit (set_users sorted c) h1).
Proof.
  intros [k ->]. rewrite applySorting_eq, apply_limit_eq, limit_set_users.
  unfold step_result, cap_list, displayed.
  destruct (limit_set c) as [n|];
    cbn [users set_users allUsers limit loading error filterText currentSort];
    rewrite !deref_new; repeat split; auto;
    try (eexists; rewrite <- !app_assoc; reflexivity);
    rewrite !length_app; simpl; lia.
Qed.

Lemma sortUsers_result (f : string) (d : option SortDirection)
  (c : Component) (h : heap) :
  step_result c h (filterText c)
    (mkSort f (next_direction f d (currentSort c)))
    (cap_list c
       (js_sort (compareUsers f (next_direction f d (currentSort c)))
          (if nonempty (filterText c) then displayed c h else cached c h)))
    (sortUsers f d c h).
Proof.
  unfold Client.sortUsers, bind.
  set (d' := next_direction f d (currentSort c)).
  set (c1 := set_currentSort (mkSort f d') c).
  cbn [filterText set_currentSort c1].
  fold c1.
  destruct (nonempty (filterText c)).
  - unfold ret.
    pose proof (sorted_then_capped c1 h h (users c1) f d'
                  (ex_intro _ [] (eq_sym (app_nil_r h)))) as Hs.
    destruct (applySorting (users c1) f d' h) as [sorted h1].
    exact Hs.
  - unfold spread, bind, read, alloc.
    pose proof (sorted_then_capped c1 h (h ++ [deref h (allUsers c1)])
                  (length h) f d' (ex_intro _ _ eq_refl)) as Hs.
    rewrite deref_new in Hs.
    destruct (applySorting (length h) f d' (h ++ [deref h (allUsers c1)]))
      as [sorted h1].
    exact Hs.
Qed.

Lemma filterUsers_result (text : string) (c : Component) (h : heap) :
  let t := trim (toLowerCase text) in
  step_result c h t (currentSort c)
    (cap_list c
       (js_sort (compareUsers (field (currentSort c)) (direction (currentSort c)))
          (if nonempty t then List.filter (matches t) (cached c h)
           else cached c h)))
    (filterUsers text c h).
Proof.
  intros t. unfold Client.filterUsers. fold t.
  set (c1 := set_filterText t c).
  cbn [filterText set_filterText c1]. fold c1.
  destruct (nonempty t) eqn:Ht; cbn [negb].
  - unfold array_filter, bind, read, alloc.
    pose proof (sorted_then_capped c1 h
                  (h ++ [List.filter (matches t) (deref h (allUsers c1))])
                  (length h) (field (currentSort c1))
                  (direction (currentSort c1)) (ex_intro _ _ eq_refl)) as Hs.
    rewrite deref_new in Hs.
    destruct (applySorting (length h) _ _ _) as [sorted h1].
    exact Hs.
  - pose proof (sortUsers_result (field (currentSort c1))
                  (Some (direction (currentSort c1))) c1 h) as Hs.
    cbn [next_direction filterText set_filterText c1] in Hs.
    rewrite Ht in Hs.
    destruct (sortUsers _ _ c1 h) as [c' h'].
    unfold step_result in *. cbn [currentSort set_filterText c1] in Hs.
    destruct (currentSort c) as [cf cd]. exact Hs.
Qed.

(** *** References stay valid *)

Lemma new_component_well_formed (lim : option Z) (h : heap) :
  let (c, h') := new_component lim h in well_formed c h'.
Proof.
  unfold new_component, bind, alloc, ret, well_formed. simpl.
  rewrite !length_app. simpl. lia.
Qed.

Lemma step_well_formed (c : Component) (h : heap) (text : string)
  (st : SortState) (shown : list User) (r : Component * heap) :
  well_formed c h -> step_result c h text st shown r ->
  let (c', h') := r in well_formed c' h'.
Proof.
  intros [_ Ha]. destruct r as [c' h'].
  intros (_ & (k & ->) & [_ Hu] & Hall & _). split; [exact Hu|].
  rewrite Hall, length_app. lia.
Qed.

Lemma sortUsers_well_formed (f : string) (d : option SortDirection)
  (c : Component) (h : heap) :
  well_formed c h -> let (c', h') := sortUsers f d c h in well_formed c' h'.
Proof.
  intros Hwf. eapply step_well_formed; [exact Hwf|]. apply sortUsers_result.
Qed.

Lemma filterUsers_well_formed (text : string) (c : Component) (h : heap) :
  well_formed c h -> let (c', h') := filterUsers text c h in well_formed c' h'.
Proof.
  intros Hwf. eapply step_well_formed; [exact Hwf|]. apply filterUsers_result.
Qed.

Lemma getUsers_well_formed (o : Outcome) (c : Component) (h : heap) :
  well_formed c h ->
  match o with Next data => (data < length h)%nat | Failed _ => True end ->
  let (c', h') := getUsers o c h in well_formed c' h'.
Proof.
  intros [Hu Ha] Ho. destruct o as [data|e]; [|split; assumption].
  unfold Client.getUsers, bind.
  pose proof (sortUsers_well_formed
                (field (currentSort (set_allUsers data (set_error None (set_loading true c)))))
                (Some (direction (currentSort (set_allUsers data (set_error None (set_loading true c))))))
                (set_allUsers data (set_error None (set_loading true c))) h) as Hs.
  destruct (sortUsers _ _ _ h) as [c' h'].
  apply Hs. split; assumption.
Qed.

(** *** Sorting *)

(** C5: when exactly one of two records has an undefined value for the sort
    field, the comparator puts that record first in ascending order and last
    in descending order, whichever of the two comes first in the input. *)
Theorem C5_undefined_first_ascending (f : string) (a b : User)
  (Ha : getField f a = VUndefined) (Hb : getField f b <> VUndefined) :
  compareUsers f asc a b = -1 /\ compareUsers f asc b a = 1 /\
  compareUsers f desc a b = 1 /\ compareUsers f desc b a = -1 /\
  js_sort (compareUsers f asc) [a; b] = [a; b] /\
  js_sort (compareUsers f asc) [b; a] = [a; b] /\
  js_sort (compareUsers f desc) [a; b] = [b; a] /\
  js_sort (compareUsers f desc) [b; a] = [b; a].
Proof.
  assert (H1 : forall d, compareUsers f d a b =
                           match d with asc => -1 | desc => 1 end).
  { intros d. unfold Client.compareUsers. rewrite Ha. reflexivity. }
  assert (H2 : forall d, compareUsers f d b a =
                           match d with asc => 1 | desc => -1 end).
  { intros d. unfold Client.compareUsers. rewrite Ha.
    destruct (getField f b); [congruence| | |]; reflexivity. }
  repeat split; try apply H1; try apply H2;
    cbn [js_sort sort_insert]; rewrite ?H1, ?H2; reflexivity.
Qed.

(** C7: a sort request without a direction flips the direction when the
    field is the current sort field, and sorts ascending when it is another
    field. *)
Theorem C7_sort_direction_toggle (f : string) (c : Component) (h : heap) :
  currentSort (fst (sortUsers f None c h)) =
    mkSort f
      (if String.eqb f (field (currentSort c))
       then match direction (currentSort c) with asc => desc | desc => asc end
       else asc).
Proof.
  pose proof (sortUsers_result f None c h) as Hs.
  destruct (sortUsers f None c h) as [c' h']. simpl.
  destruct Hs as (_ & _ & _ & _ & _ & _ & _ & _ & ->).
  unfold next_direction.
  destruct (String.eqb f (field (currentSort c)));
    destruct (direction (currentSort c)); reflexivity.
Qed.

(** *** Fetching *)

(** C8: a failed fetch sets the one error message and clears the loading
    flag; the displayed list, the cached full set and every array are as
    before.  After a successful fetch the loading flag is cleared as well. *)
Theorem C8_fetch_failure_frame (err : string) (o : Outcome)
  (c : Component) (h : heap) :
  (let (c', h') := getUsers (Failed err) c h in
   error c' = Some "Failed to load users. Please try again later." /\
   loading c' = false /\
   users c' = users c /\ allUsers c' = allUsers c /\ h' = h /\
   displayed c' h' = displayed c h /\ cached c' h' = cached c h) /\
  loading (fst (getUsers o c h)) = false.
Proof.
  split; [repeat split; reflexivity|].
  destruct o as [data|e]; [|reflexivity].
  unfold Client.getUsers, bind.
  destruct (sortUsers _ _ _ h) as [c' h']. reflexivity.
Qed.

(** *** The cached full set *)

Lemma step_keeps_cache (c : Component) (h : heap) (text : string)
  (st : SortState) (shown : list User) (r : Component * heap) :
  (allUsers c < length h)%nat ->
  step_result c h text st shown r -> cache_kept c h r.
Proof.
  intros Hv. destruct r as [c' h'].
  intros (_ & (k & ->) & [Hfresh _] & Hall & _). unfold cache_kept, cached.
  rewrite Hall. repeat split.
  - apply deref_old, Hv.
  - lia.
  - intros l Hl. apply deref_old, Hl.
Qed.

(** C9: a filter step and a sort step leave [allUsers] pointing to the same
    array with the same elements in the same order; the displayed list is a
    different array, and no array that existed before the step is changed. *)
Theorem C9_filter_and_sort_keep_cache (text f : string)
  (d : option SortDirection) (c : Component) (h : heap)
  (Hvalid : (allUsers c < length h)%nat) :
  cache_kept c h (filterUsers text c h) /\
  cache_kept c h (sortUsers f d c h).
Proof.
  split.
  - eapply step_keeps_cache; [exact Hvalid|]. apply filterUsers_result.
  - eapply step_keeps_cache; [exact Hvalid|]. apply sortUsers_result.
Qed.

(** *** Filter, sort, cap *)

(** A filter step shows the first cap-many elements of the filtered and
    sorted full set. *)
Lemma filterUsers_filter_sort_cap (text : string) (cap : Z)
  (c : Component) (h : heap) :
  limit_set c = Some cap ->
  let (c', h') := filterUsers text c h in
  displayed c' h' =
    spec_filter_sort_cap localeCompare parseDate (cached c h)
      (filterText c') (currentSort c') cap.
Proof.
  intros Hcap. pose proof (filterUsers_result text c h) as Hs.
  destruct (filterUsers text c h) as [c' h'].
  destruct Hs as (-> & _ & _ & _ & _ & _ & _ & -> & ->).
  unfold cap_list, spec_filter_sort_cap. rewrite Hcap. reflexivity.
Qed.

(** So does a sort step while no filter is active. *)
Lemma sortUsers_unfiltered_sort_cap (f : string) (d : option SortDirection)
  (cap : Z) (c : Component) (h : heap) :
  limit_set c = Some cap -> filterText c = "" ->
  let (c', h') := sortUsers f d c h in
  displayed c' h' =
    spec_filter_sort_cap localeCompare parseDate (cached c h)
      (filterText c') (currentSort c') cap.
Proof.
  intros Hcap Hft. pose proof (sortUsers_result f d c h) as Hs.
  destruct (sortUsers f d c h) as [c' h'].
  destruct Hs as (-> & _ & _ & _ & _ & _ & _ & -> & ->).
  unfold cap_list, spec_filter_sort_cap. rewrite Hcap, Hft. reflexivity.
Qed.

End ClientFacts.


(** *** The component on the inputs of its test suite *)

Example loads_sorted_by_name :
  let (c, h) := loaded None mockUsers [] in
  map Client.name (Client.displayed c h) =
    ["Alice Johnson"; "Bob Smith"; "Carol Williams"; "Dave Brown"] /\
  Client.loading c = false /\ Client.error c = None.
Proof. vm_compute. repeat split; reflexivity. Qed.

Example respects_limit :
  let (c, h) := loaded (Some 2) mockUsers [] in
  map Client.name (Client.displayed c h) = ["Alice Johnson"; "Bob Smith"].
Proof. vm_compute. reflexivity. Qed.

Example sorts_by_email_descending :
  let (c, h) :=
    Client.bind (loaded None mockUsers)
      (Client.sortUsers sample_collate sample_parseDate "email"
         (Some Client.desc)) [] in
  map Client.email (Client.displayed c h) =
    ["dave@example.com"; "carol@example.com"; "bob@example.com";
     "alice@example.com"].
Proof. vm_compute. reflexivity. Qed.

Example sorts_by_date :
  let (c, h) :=
    Client.bind (loaded None mockUsers)
      (Client.sortUsers sample_collate sample_parseDate "createdAt"
         (Some Client.desc)) [] in
  map Client.id (Client.displayed c h) = [4; 3; 2; 1].
Proof. vm_compute. reflexivity. Qed.

Example filters_by_role :
  let (c, h) :=
    Client.bind (loaded None mockUsers)
      (Client.filterUsers sample_collate sample_parseDate " User ") [] in
  Client.filterText c = "user" /\
  map Client.name (Client.displayed c h) = ["Bob Smith"; "Dave Brown"].
Proof. vm_compute. split; reflexivity. Qed.

Example clears_filter :
  let (c, h) :=
    Client.bind (loaded None mockUsers) (fun c =>
    Client.bind (Client.filterUsers sample_collate sample_parseDate "admin" c)
      (Client.filterUsers sample_collate sample_parseDate "")) [] in
  Client.filterText c = "" /\ length (Client.displayed c h) = 4%nat.
Proof. vm_compute. split; reflexivity. Qed.

(** C5, counterexample: the specification puts a record with an undefined
    sort value last in ascending order; sorting the two test users by role,
    ascending, shows Alice, whose role is undefined, first and not last, and
    descending shows her last. *)
Lemma C5_undefined_role_is_first_ascending :
  Client.getField "role" c_alice = Client.VUndefined /\
  Client.getField "role" c_bob = Client.VString "User" /\
  Client.compareUsers sample_collate sample_parseDate "role" Client.asc
    c_alice c_bob = -1 /\
  Client.js_sort
    (Client.compareUsers sample_collate sample_parseDate "role" Client.asc)
    [c_alice; c_bob] = [c_alice; c_bob] /\
  Client.js_sort
    (Client.compareUsers sample_collate sample_parseDate "role" Client.asc)
    [c_bob; c_alice] = [c_alice; c_bob] /\
  Client.js_sort
    (Client.compareUsers sample_collate sample_parseDate "role" Client.desc)
    [c_alice; c_bob] = [c_bob; c_alice] /\
  Client.js_sort
    (Client.compareUsers sample_collate sample_parseDate "role" Client.asc)
    [c_alice; c_bob] <> [c_bob; c_alice].
Proof.
  repeat split; try reflexivity. vm_compute. discriminate.
Qed.

Lemma C5_undefined_first_ascending_witness :
  Client.getField "role" c_alice = Client.VUndefined /\
  Client.getField "role" c_bob <> Client.VUndefined /\
  Client.compareUsers sample_collate sample_parseDate "role" Client.asc
    c_alice c_bob = -1.
Proof.
  split; [reflexivity|]. split; [discriminate|].
  apply (C5_undefined_first_ascending sample_collate sample_parseDate
           "role" c_alice c_bob); [reflexivity | discriminate].
Defined.

(** C6: with a cap of two and the filter "user" active, a sort request
    re-sorts the two records on display, Ann and Ben, instead of the three
    records that pass the filter: the list shows Ben, Ann where the first two
    of the filtered set sorted by name, descending, are Cat, Ben. *)
Theorem C6_sort_after_capped_filter_sorts_displayed_list :
  let (c, h) := capped_filter_then_sort [] in
  Client.limit c = Some 2 /\
  Client.filterText c = "user" /\
  Client.currentSort c = Client.mkSort "name" Client.desc /\
  Client.cached c h = [u_ann; u_ben; u_cat; u_dan] /\
  Client.displayed c h = [u_ben; u_ann] /\
  Client.spec_filter_sort_cap sample_collate sample_parseDate
    (Client.cached c h) (Client.filterText c) (Client.currentSort c) 2
    = [u_cat; u_ben].
Proof.
  vm_compute. repeat split; reflexivity.
Qed.

Lemma C9_filter_and_sort_keep_cache_witness :
  let c := Client.mkComponent (Some 2) 0%nat 1%nat false None ""
             (Client.mkSort "name" Client.asc) in
  let h := [[]; [u_ben; u_ann; u_dan]] in
  (Client.allUsers c < length h)%nat /\
  Client.cache_kept c h
    (Client.filterUsers sample_collate sample_parseDate "user" c h) /\
  Client.cache_kept c h
    (Client.sortUsers sample_collate sample_parseDate "name" None c h).
Proof.
  split; [simpl; lia|].
  apply (C9_filter_and_sort_keep_cache sample_collate sample_parseDate
           "user" "name" None
           (Client.mkComponent (Some 2) 0%nat 1%nat false None ""
              (Client.mkSort "name" Client.asc))
           [[]; [u_ben; u_ann; u_dan]]).
  simpl; lia.
Defined.

(** ** Further facts about the service *)

Section ServiceProperties.

Import Backend.

Variable bcrypt_hash : string -> string.
Variable bcrypt_compare : string -> string -> bool.
Variable generateToken : User -> string.

Lemma find_app_last {A} (p : A -> bool) (l : list A) (x : A) :
  find p (l ++ [x]) =
    match find p l with
    | Some y => Some y
    | None => if p x then Some x else None
    end.
Proof.
  induction l as [|a l IH]; simpl; [reflexivity|].
  destruct (p a); [reflexivity | exact IH].
Qed.

Lemma find_id_fresh (s : Store) :
  store_ok s -> find (fun u => id u =? idCounter s) (users s) = None.
Proof.
  intros [Hlt _]. destruct (find _ (users s)) as [u|] eqn:Hf; [|reflexivity].
  apply find_some in Hf. destruct Hf as [Hin Hid].
  rewrite List.Forall_forall in Hlt. specialize (Hlt u Hin). simpl in Hlt.
  apply Z.eqb_eq in Hid. lia.
Qed.

Lemma find_delete_other {A} (p : A -> bool) (l : list A) (k : nat) (u : A) :
  l !! k = Some u -> p u = false -> find p (delete k l) = find p l.
Proof.
  revert k. induction l as [|a l IH]; intros [|k] Hl Hp; simpl in *;
    try discriminate.
  - injection Hl as ->. rewrite Hp. reflexivity.
  - destruct (p a); [reflexivity|]. eapply IH; eassumption.
Qed.

Lemma find_id_delete (l : list User) (k : nat) (u : User) :
  NoDup (map id l) -> l !! k = Some u ->
  find (fun x => id x =? id u) (delete k l) = None.
Proof.
  revert k. induction l as [|a l IH]; intros [|k] Hnd Hl; simpl in *;
    try discriminate; apply NoDup_cons in Hnd; destruct Hnd as [Ha Hnd].
  - injection Hl as ->.
    destruct (find _ l) as [x|] eqn:Hf; [|reflexivity].
    apply find_some in Hf. destruct Hf as [Hin Hid]. apply Z.eqb_eq in Hid.
    exfalso. apply Ha. rewrite <- Hid. apply list_elem_of_In, in_map, Hin.
  - assert (Hne : id a <> id u).
    { intros Heq. apply Ha. rewrite Heq.
      apply list_elem_of_In, in_map, list_elem_of_In.
      eapply list_elem_of_lookup_2, Hl. }
    apply Z.eqb_neq in Hne. rewrite Hne. apply IH; assumption.
Qed.

Lemma find_insert_first {A} (p : A -> bool) (l : list A) (k : nat) (u u' : A) :
  l !! k = Some u ->
  (forall (j : nat) y, (j < k)%nat -> l !! j = Some y -> p y = false) ->
  p u' = true ->
  find p (<[k := u']> l) = Some u'.
Proof.
  revert k. induction l as [|a l IH]; intros [|k] Hl Hmin Hp; simpl in *;
    try discriminate.
  - rewrite Hp. reflexivity.
  - rewrite (Hmin 0%nat a) by (simpl; auto; lia).
    apply IH; auto.
    intros j y Hj Hy. apply (Hmin (S j) y); [lia | exact Hy].
Qed.

(** *** Create, then look up *)

(** X1: in a store whose identities are below the counter, [createUser]
    returns a record with the counter's value as identity, and looking that
    identity up right away returns the very same record. *)
Theorem create_then_getUserById (d : UserCreateDTO) (now : Z) (s : Store)
  (Hok : store_ok s) :
  let (r, s') := createUser bcrypt_hash d now s in
  exists u, r = Ok u /\ id u = idCounter s /\
            getUserById (id u) s' = (Ok (Some u), s').
Proof.
  rewrite createUser_eq. eexists. split; [reflexivity|]. split; [reflexivity|].
  rewrite getUserById_eq. cbn [users id sanitizeUser].
  rewrite find_app_last, (find_id_fresh s Hok). cbn [id].
  rewrite Z.eqb_refl. reflexivity.
Qed.

(** X2: after [createUser], a look-up by the new record's email returns the
    new record when no stored record had that email, and otherwise still
    returns the older record: the first match wins. *)
Theorem create_then_getUserByEmail (d : UserCreateDTO) (now : Z) (s : Store) :
  let (r, s') := createUser bcrypt_hash d now s in
  exists u, r = Ok u /\
    fst (getUserByEmail (c_email d) s') =
      Ok (Some (match find (fun x => String.eqb (email x) (c_email d)) (users s) with
                | Some old => sanitizeUser old
                | None => u
                end)).
Proof.
  rewrite createUser_eq. eexists. split; [reflexivity|].
  rewrite getUserByEmail_eq. cbn [users fst]. rewrite find_app_last.
  destruct (find _ (users s)); [reflexivity|].
  cbn [email]. rewrite String.eqb_refl. reflexivity.
Qed.

(** *** Listing *)

(** X3: [getUsers] returns one sanitised record per stored record, in store
    order, and leaves the store alone; after a [createUser] the listing is
    the listing from before followed by the record that was returned. *)
Theorem getUsers_lists_in_creation_order (d : UserCreateDTO) (now : Z) (s : Store) :
  getUsers s = (Ok (map sanitizeUser (users s)), s) /\
  let (r, s') := createUser bcrypt_hash d now s in
  exists u, r = Ok u /\
    fst (getUsers s') = Ok (map sanitizeUser (users s) ++ [u]).
Proof.
  split; [reflexivity|].
  rewrite createUser_eq. eexists. split; [reflexivity|].
  unfold getUsers, bind, get, ret. cbn [users fst]. rewrite map_app.
  reflexivity.
Qed.

(** *** What leaves the store alone *)

(** X4: a method that only reads (the three look-ups and the credential
    check), and any method call that is rejected, leaves the store exactly as
    it was. *)
Theorem query_or_rejection_keeps_store (op : Op) (s : Store)
  (H : is_query op = true \/
       exists msg, fst (run_op bcrypt_hash bcrypt_compare op s) = Throw msg) :
  snd (run_op bcrypt_hash bcrypt_compare op s) = s.
Proof.
  destruct op as [|i|e|d now|i d|i|e pw]; unfold run_op, bind in *.
  - reflexivity.
  - rewrite getUserById_eq. reflexivity.
  - rewrite getUserByEmail_eq. reflexivity.
  - destruct H as [H|[msg H]]; [discriminate|].
    rewrite createUser_eq in H. discriminate.
  - destruct H as [H|[msg H]]; [discriminate|].
    pose proof (updateUser_eq i d s) as Hu.
    destruct (find _ (users s)).
    + destruct Hu as (k & _ & _ & _ & Hu). rewrite Hu in H. discriminate.
    + rewrite Hu. reflexivity.
  - destruct H as [H|[msg H]]; [discriminate|].
    pose proof (deleteUser_eq i s) as Hd.
    destruct (find _ (users s)).
    + destruct Hd as (k & _ & Hd). rewrite Hd in H. discriminate.
    + rewrite Hd. reflexivity.
  - unfold verifyCredentials, try_catch, bind, get, ret.
    destruct (find _ (users s)) as [u|]; simpl; [|reflexivity].
    destruct (truthy (password u)); simpl; [|reflexivity].
    destruct (bcrypt_compare _ _); reflexivity.
Qed.

(** *** Delete *)

(** X5: in a store with pairwise distinct identities, [deleteUser] on an
    absent identity rejects with 'Failed to delete user'; on a present one it
    returns [true], takes exactly one record out, keeps the counter, makes
    the identity unknown to [getUserById] and leaves every other look-up by
    identity as it was. *)
Theorem deleteUser_contract (i : Z) (s : Store) (Hok : store_ok s) :
  match find (fun u => id u =? i) (users s) with
  | None => deleteUser i s = (Throw "Failed to delete user", s)
  | Some u =>
      exists s',
        deleteUser i s = (Ok true, s') /\
        idCounter s' = idCounter s /\
        S (length (users s')) = length (users s) /\
        users s' `sublist_of` users s /\
        getUserById i s' = (Ok None, s') /\
        forall j, j <> i -> fst (getUserById j s') = fst (getUserById j s)
  end.
Proof.
  pose proof (deleteUser_eq i s) as Hd.
  destruct (find _ (users s)) as [u|] eqn:Hf; [|exact Hd].
  destruct Hd as (k & Hl & Hd).
  apply find_some in Hf. destruct Hf as [_ Hid]. apply Z.eqb_eq in Hid.
  eexists. split; [exact Hd|]. cbn [idCounter users].
  split; [reflexivity|]. split.
  { rewrite length_delete by eauto. apply lookup_lt_Some in Hl. lia. }
  split; [apply sublist_delete|]. split.
  - rewrite getUserById_eq. cbn [users]. subst i.
    rewrite find_id_delete; [reflexivity | apply Hok | exact Hl].
  - intros j Hj. rewrite !getUserById_eq. cbn [users fst].
    erewrite find_delete_other; [reflexivity | exact Hl |].
    apply Z.eqb_neq. congruence.
Qed.

(** *** Update *)

Lemma apply_update_twice (d : UserUpdateDTO) (u : User) :
  apply_update d (apply_update d u) = apply_update d u.
Proof. destruct d as [[?|] [?|] [?|]]; reflexivity. Qed.

(** X6: [updateUser] is idempotent: repeating a call with the same
    arguments gives the same outcome and leaves the store as the first call
    left it. *)
Theorem updateUser_idempotent (i : Z) (d : UserUpdateDTO) (s : Store) :
  let (r, s') := updateUser i d s in updateUser i d s' = (r, s').
Proof.
  pose proof (updateUser_eq i d s) as Hu.
  destruct (find (fun u => id u =? i) (users s)) as [u|] eqn:Hf.
  - destruct Hu as (k & Hl & Hid & Hmin & ->).
    set (u' := apply_update d u).
    assert (Hid' : id u' = i) by (unfold u'; rewrite apply_update_id; exact Hid).
    assert (Hf' : find (fun x => id x =? i) (<[k := u']> (users s)) = Some u').
    { eapply find_insert_first; [exact Hl | | apply Z.eqb_eq, Hid'].
      intros j y Hj Hy. apply Z.eqb_neq. eapply Hmin; eassumption. }
    pose proof (updateUser_eq i d
                  (mkStore (<[k := u']> (users s)) (idCounter s))) as Hu2.
    cbn [users idCounter] in Hu2. rewrite Hf' in Hu2.
    destruct Hu2 as (k' & Hl' & _ & Hmin' & ->).
    assert (Hk : k' = k).
    { destruct (Nat.lt_trichotomy k' k) as [Hlt|[Heq|Hgt]]; [|exact Heq|].
      - exfalso. rewrite list_lookup_insert_ne in Hl' by lia.
        apply (Hmin k' u' Hlt Hl'). exact Hid'.
      - exfalso. apply (Hmin' k u' Hgt); [|exact Hid'].
        apply list_lookup_insert_eq. eapply lookup_lt_Some, Hl. }
    subst k'. rewrite list_insert_insert_eq.
    unfold u'. rewrite !apply_update_twice. reflexivity.
  - rewrite Hu. pose proof (updateUser_eq i d s) as Hu2.
    rewrite Hf in Hu2. exact Hu2.
Qed.

(** X7: an update that provides none of the three fields changes nothing:
    on a stored identity it returns what [getUserById] returns and the store
    is as before; on an absent one it rejects. *)
Theorem updateUser_nothing_provided (i : Z) (s : Store) :
  match find (fun u => id u =? i) (users s) with
  | None =>
      updateUser i (mkUpdate None None None) s =
        (Throw "Failed to update user", s)
  | Some u =>
      updateUser i (mkUpdate None None None) s = (Ok (sanitizeUser u), s) /\
      getUserById i s = (Ok (Some (sanitizeUser u)), s)
  end.
Proof.
  pose proof (updateUser_eq i (mkUpdate None None None) s) as Hu.
  rewrite getUserById_eq.
  destruct (find (fun u => id u =? i) (users s)) as [u|]; [|exact Hu].
  destruct Hu as (k & Hl & _ & _ & ->). cbn [apply_update assign_if u_name u_email u_role].
  rewrite list_insert_id by exact Hl. destruct s; split; reflexivity.
Qed.

(** *** Register, then log in *)

(** X8: when [bcrypt.compare] accepts the secret against its own hash and
    the hash is not empty, registering a new email answers 201 with a token
    for the new record, and a login with the same email and secret right
    after answers 200 with a token for the same record. *)
Theorem register_then_login_succeeds (name e pw : string) (now : Z) (s : Store)
  (Hcmp : bcrypt_compare pw (bcrypt_hash pw) = true)
  (Hne : bcrypt_hash pw <> EmptyString)
  (Hfresh : find (fun x => String.eqb (email x) e) (users s) = None) :
  let (r, s') := register bcrypt_hash generateToken name e pw now s in
  exists u,
    r = Ok (mkResp 201 (JToken (generateToken u))) /\
    id u = idCounter s /\ email u = e /\ password u = None /\
    login bcrypt_compare generateToken e pw s' =
      (Ok (mkResp 200 (JToken (generateToken u))), s').
Proof.
  unfold register, bind. rewrite getUserByEmail_eq, Hfresh.
  cbn [option_map]. rewrite createUser_eq. cbn [ret].
  eexists. split; [reflexivity|]. cbn [id email password sanitizeUser].
  repeat split.
  unfold login, verifyCredentials, try_catch, bind, get, ret. cbn [users].
  rewrite find_app_last, Hfresh. cbn [email c_email].
  rewrite String.eqb_refl. apply String.eqb_neq in Hne.
  simpl. rewrite Hne. simpl. rewrite Hcmp. reflexivity.
Qed.

(** *** Stored records *)

(** The effect of a method call on the store, by cases. *)
Lemma run_op_effect (op : Op) (s : Store) :
  snd (run_op bcrypt_hash bcrypt_compare op s) = s \/
  (exists d now, op = OpCreateUser d now /\
     snd (run_op bcrypt_hash bcrypt_compare op s) =
       mkStore (users s ++
                [mkUser (idCounter s) (c_name d) (c_email d) (c_role d)
                        (Some now) (Some (bcrypt_hash (c_password d)))])
               (idCounter s + 1)) \/
  (exists i d k u, op = OpUpdateUser i d /\ users s !! k = Some u /\
     snd (run_op bcrypt_hash bcrypt_compare op s) =
       mkStore (<[k := apply_update d u]> (users s)) (idCounter s)) \/
  (exists i k u, op = OpDeleteUser i /\ users s !! k = Some u /\
     snd (run_op bcrypt_hash bcrypt_compare op s) =
       mkStore (delete k (users s)) (idCounter s)).
Proof.
  destruct op as [|i|e|d now|i d|i|e pw]; unfold run_op, bind.
  - left. reflexivity.
  - left. rewrite getUserById_eq. reflexivity.
  - left. rewrite getUserByEmail_eq. reflexivity.
  - right. left. exists d, now. rewrite createUser_eq. auto.
  - pose proof (updateUser_eq i d s) as Hu.
    destruct (find _ (users s)) as [u|].
    + destruct Hu as (k & Hl & _ & _ & ->). right. right. left.
      exists i, d, k, u. auto.
    + left. rewrite Hu. reflexivity.
  - pose proof (deleteUser_eq i s) as Hd.
    destruct (find _ (users s)) as [u|].
    + destruct Hd as (k & Hl & ->). right. right. right.
      exists i, k, u. auto.
    + left. rewrite Hd. reflexivity.
  - left. unfold verifyCredentials, try_catch, bind, get, ret.
    destruct (find _ (users s)) as [u|]; simpl; [|reflexivity].
    destruct (truthy (password u)); simpl; [|reflexivity].
    destruct (bcrypt_compare _ _); reflexivity.
Qed.

Lemma stored_form_mono (s s' : Store) (u : User) :
  idCounter s <= idCounter s' -> stored_form s u -> stored_form s' u.
Proof. unfold stored_form. intros Hle (Hid & Hp & Hc). repeat split; auto; lia. Qed.

Lemma run_op_stored_inv (op : Op) (s : Store) :
  stored_inv s -> stored_inv (snd (run_op bcrypt_hash bcrypt_compare op s)).
Proof.
  intros [Hall Hlen].
  destruct (run_op_effect op s)
    as [->|[(d & now & _ & ->)|[(i & d & k & u & _ & Hl & ->)|(i & k & u & _ & Hl & ->)]]];
    unfold stored_inv; cbn [users idCounter].
  - split; assumption.
  - split.
    + apply Forall_app. split.
      * eapply Forall_impl; [exact Hall|]. intros x Hx.
        eapply stored_form_mono; [|exact Hx]. simpl. lia.
      * constructor; [|constructor]. unfold stored_form. simpl.
        repeat split; try discriminate; lia.
    + rewrite length_app. simpl. lia.
  - split.
    + apply Forall_insert; [exact Hall|].
      pose proof (Forall_lookup_1 _ _ _ _ Hall Hl) as (Hid & Hp & Hc).
      unfold stored_form.
      rewrite apply_update_id, apply_update_password, apply_update_createdAt.
      auto.
    + rewrite length_insert. exact Hlen.
  - split.
    + apply Forall_delete. exact Hall.
    + rewrite length_delete by eauto. apply lookup_lt_Some in Hl. lia.
Qed.

(** X9: in every store reached from the initial one by service calls, each
    record has an identity between 1 and the counter, a password hash and a
    creation time, and there are fewer records than the counter's value. *)
Theorem reachable_store_is_well_formed (ops : list Op) :
  let s := exec bcrypt_hash bcrypt_compare ops init in
  Forall (stored_form s) (users s) /\
  Z.of_nat (length (users s)) <= idCounter s - 1.
Proof.
  cbn zeta. change (stored_inv (exec bcrypt_hash bcrypt_compare ops init)).
  assert (Hinit : stored_inv init) by (split; [constructor | simpl; lia]).
  revert Hinit. generalize init. induction ops as [|op ops IH]; intros s Hs;
    simpl; auto.
  apply IH, run_op_stored_inv, Hs.
Qed.

End ServiceProperties.

(** ** Facts about the HTTP layer *)

Section HttpProperties.

Import Backend.

Variable bcrypt_hash : string -> string.
Variable bcrypt_compare : string -> string -> bool.
Variable generateToken : User -> string.
Variable Payload : Type.
Variable verifyToken : string -> option Payload.

Local Abbreviation app :=
  (Backend.app bcrypt_hash bcrypt_compare generateToken Payload verifyToken).
Local Abbreviation serve :=
  (Backend.serve bcrypt_hash bcrypt_compare generateToken Payload verifyToken).
Local Abbreviation users_router :=
  (Backend.users_router bcrypt_hash Payload verifyToken).
Local Abbreviation authenticateToken :=
  (Backend.authenticateToken Payload verifyToken).

(** *** The handlers, by cases on the store *)

Lemma get_user_eq (i : Z) (s : Store) :
  get_user i s =
    (Ok (match find (fun u => id u =? i) (users s) with
         | None => mkResp 404 (JError "User not found")
         | Some u => mkResp 200 (JUser (sanitizeUser u))
         end), s).
Proof.
  unfold get_user, try_catch, bind. rewrite getUserById_eq.
  destruct (find _ (users s)); reflexivity.
Qed.

Lemma delete_user_eq (i : Z) (s : Store) :
  match find (fun u => id u =? i) (users s) with
  | None => delete_user i s = (Ok (mkResp 404 (JError "User not found")), s)
  | Some u =>
      exists k : nat,
        users s !! k = Some u /\
        deleteUser i s = (Ok true, mkStore (delete k (users s)) (idCounter s)) /\
        delete_user i s =
          (Ok (mkResp 204 NoBody), mkStore (delete k (users s)) (idCounter s))
  end.
Proof.
  pose proof (deleteUser_eq i s) as Hd.
  unfold delete_user, try_catch, bind. rewrite getUserById_eq.
  destruct (find _ (users s)) as [u|]; [|reflexivity].
  destruct Hd as (k & Hl & Hd). exists k. cbn [option_map].
  rewrite Hd. auto.
Qed.

Lemma post_user_eq (n e pw : string) (r : option string) (now : Z) (s : Store) :
  post_user bcrypt_hash n e pw r now s =
    match find (fun u => String.eqb (email u) e) (users s) with
    | Some _ => (Ok (mkResp 409 (JError "Email already exists")), s)
    | None =>
        (Ok (mkResp 201
               (JUser (mkUser (idCounter s) n e r (Some now) None))),
         mkStore (users s ++
                  [mkUser (idCounter s) n e r (Some now) (Some (bcrypt_hash pw))])
                 (idCounter s + 1))
    end.
Proof.
  unfold post_user, try_catch, bind. rewrite getUserByEmail_eq.
  destruct (find _ (users s)); reflexivity.
Qed.

Lemma register_eq (n e pw : string) (now : Z) (s : Store) :
  register bcrypt_hash generateToken n e pw now s =
    match find (fun u => String.eqb (email u) e) (users s) with
    | Some _ => (Ok (mkResp 400 (JError "Email already registered.")), s)
    | None =>
        (Ok (mkResp 201
               (JToken (generateToken
                          (mkUser (idCounter s) n e None (Some now) None)))),
         mkStore (users s ++
                  [mkUser (idCounter s) n e None (Some now)
                          (Some (bcrypt_hash pw))])
                 (idCounter s + 1))
    end.
Proof.
  unfold register, bind. rewrite getUserByEmail_eq.
  destruct (find _ (users s)); reflexivity.
Qed.

Lemma login_eq (e pw : string) (s : Store) :
  exists resp,
    login bcrypt_compare generateToken e pw s = (Ok resp, s) /\
    (resp = mkResp 400 (JError "Invalid credentials.") \/
     exists u, resp = mkResp 200 (JToken (generateToken u))).
Proof.
  unfold login, verifyCredentials, try_catch, bind, get, ret.
  destruct (find _ (users s)) as [u|]; simpl; [|eauto].
  destruct (truthy (password u)); simpl; [|eauto].
  destruct (bcrypt_compare _ _); simpl; eauto.
Qed.

Lemma put_user_eq (i : Z) (n e r : option string) (s : Store) :
  match find (fun u => id u =? i) (users s) with
  | None => put_user i n e r s = (Ok (mkResp 404 (JError "User not found")), s)
  | Some u =>
      if email_conflict e u s
      then put_user i n e r s =
             (Ok (mkResp 409 (JError "Email already exists")), s)
      else exists k : nat,
             users s !! k = Some u /\
             updateUser i (mkUpdate n e r) s =
               (Ok (sanitizeUser (apply_update (mkUpdate n e r) u)),
                mkStore (<[k := apply_update (mkUpdate n e r) u]> (users s))
                        (idCounter s)) /\
             put_user i n e r s =
               (Ok (mkResp 200
                      (JUser (sanitizeUser (apply_update (mkUpdate n e r) u)))),
                mkStore (<[k := apply_update (mkUpdate n e r) u]> (users s))
                        (idCounter s))
  end.
Proof.
  pose proof (updateUser_eq i (mkUpdate n e r) s) as Hu.
  unfold put_user, try_catch, bind. rewrite getUserById_eq.
  destruct (find (fun u => id u =? i) (users s)) as [u|]; [|reflexivity].
  destruct Hu as (k & Hl & _ & _ & Hu). cbn [option_map].
  unfold email_conflict, email_taken. destruct e as [e'|]; simpl.
  - destruct (String.eqb e' ""); simpl.
    + unfold ret. rewrite Hu. eauto.
    + destruct (String.eqb e' (email u)); simpl.
      * unfold ret. rewrite Hu. eauto.
      * destruct (find (fun x => String.eqb (email x) e') (users s)); simpl.
        -- reflexivity.
        -- unfold ret. rewrite Hu. eauto.
  - unfold ret. rewrite Hu. eauto.
Qed.

Lemma map_delete {A B} (f : A -> B) (l : list A) (k : nat) :
  map f (delete k l) = delete k (map f l).
Proof.
  revert k. induction l as [|a l IH]; intros [|k]; simpl; auto.
  f_equal. apply IH.
Qed.

Lemma NoDup_map_email_snoc (l : list User) (u : User) :
  NoDup (map email l) ->
  find (fun x => String.eqb (email x) (email u)) l = None ->
  NoDup (map email (l ++ [u])).
Proof.
  intros Hnd Hf. rewrite map_app. apply NoDup_app. repeat split; auto.
  - intros x Hx Hin. simpl in Hin. apply list_elem_of_singleton in Hin.
    subst x. exact (find_email_None _ _ Hf Hx).
  - simpl. apply NoDup_singleton.
Qed.

Lemma authenticateToken_cases (authorization : option string) :
  (exists user, authenticateToken authorization = Passed Payload user) \/
  authenticateToken authorization =
    Rejected Payload (mkResp 401 (JError "No token provided.")) \/
  authenticateToken authorization =
    Rejected Payload (mkResp 403 (JError "Invalid or expired token.")).
Proof.
  unfold Backend.authenticateToken.
  destruct (truthy _); [|auto].
  destruct (verifyToken _); eauto.
Qed.

(** *** Emails stay distinct *)

Lemma app_step_emails (req : Request) (s : Store) :
  update_email_nonempty req ->
  NoDup (map email (users s)) ->
  NoDup (map email (users (snd (app req s)))).
Proof.
  intros Hv Hnd. destruct req as [[n e pw now|e pw]|authorization r].
  - cbn [Backend.app auth_route]. rewrite register_eq.
    destruct (find _ (users s)) eqn:Hf; cbn [snd users]; [exact Hnd|].
    apply NoDup_map_email_snoc; [exact Hnd | exact Hf].
  - cbn [Backend.app auth_route].
    destruct (login_eq e pw s) as (resp & -> & _). exact Hnd.
  - cbn [Backend.app]. unfold Backend.users_router.
    destruct (authenticateToken authorization); [exact Hnd|].
    destruct r as [|i|n e pw r now|i n e r|i]; cbn [users_route].
    + exact Hnd.
    + rewrite get_user_eq. exact Hnd.
    + rewrite post_user_eq.
      destruct (find _ (users s)) eqn:Hf; cbn [snd users]; [exact Hnd|].
      apply NoDup_map_email_snoc; [exact Hnd | exact Hf].
    + apply put_user_keeps_emails_distinct; [|exact Hnd].
      destruct e as [e'|]; [|discriminate]. simpl in Hv. congruence.
    + pose proof (delete_user_eq i s) as Hd.
      destruct (find _ (users s)).
      * destruct Hd as (k & _ & _ & ->). cbn [snd users].
        rewrite map_delete.
        eapply sublist_NoDup; [exact Hnd | apply sublist_delete].
      * rewrite Hd. exact Hnd.
Qed.


(** *** Answers *)

(** X11: the application answers every request, and never with 500: the
    look-ups the handlers make first keep the service from rejecting. *)
Theorem app_always_answers (req : Request) (s : Store) :
  exists resp,
    fst (app req s) = Ok resp /\
    In (status resp) [200; 201; 204; 400; 401; 403; 404; 409].
Proof.
  destruct req as [[n e pw now|e pw]|authorization r].
  - cbn [Backend.app auth_route]. rewrite register_eq.
    destruct (find _ (users s)); eexists; (split; [reflexivity|]); simpl; tauto.
  - cbn [Backend.app auth_route].
    destruct (login_eq e pw s) as (resp & -> & [->|[u ->]]);
      eexists; (split; [reflexivity|]); simpl; tauto.
  - cbn [Backend.app]. unfold Backend.users_router.
    destruct (authenticateToken_cases authorization) as [[user ->]|[->| ->]].
    + destruct r as [|i|n e pw r now|i n e r|i]; cbn [users_route].
      * eexists. split; [reflexivity|]. simpl; tauto.
      * rewrite get_user_eq.
        destruct (find _ (users s)); eexists; (split; [reflexivity|]);
          simpl; tauto.
      * rewrite post_user_eq.
        destruct (find _ (users s)); eexists; (split; [reflexivity|]);
          simpl; tauto.
      * pose proof (put_user_eq i n e r s) as Hp.
        destruct (find _ (users s)) as [u|].
        -- destruct (email_conflict e u s).
           ++ rewrite Hp. eexists. split; [reflexivity|]. simpl; tauto.
           ++ destruct Hp as (k & _ & _ & ->). eexists.
              split; [reflexivity|]. simpl; tauto.
        -- rewrite Hp. eexists. split; [reflexivity|]. simpl; tauto.
      * pose proof (delete_user_eq i s) as Hd.
        destruct (find _ (users s)).
        -- destruct Hd as (k & _ & _ & ->). eexists.
           split; [reflexivity|]. simpl; tauto.
        -- rewrite Hd. eexists. split; [reflexivity|]. simpl; tauto.
    + eexists. split; [reflexivity|]. simpl; tauto.
    + eexists. split; [reflexivity|]. simpl; tauto.
Qed.

(** X12: no response of the application carries a password hash: every user
    record in a response body has no [password] property. *)
Theorem app_responses_sanitized (req : Request) (s : Store) :
  match fst (app req s) with
  | Ok resp => Forall (fun u => password u = None) (body_users (body resp))
  | Throw _ => True
  end.
Proof.
  destruct req as [[n e pw now|e pw]|authorization r].
  - cbn [Backend.app auth_route]. rewrite register_eq.
    destruct (find _ (users s)); simpl; constructor.
  - cbn [Backend.app auth_route].
    destruct (login_eq e pw s) as (resp & -> & [->|[u ->]]); simpl; constructor.
  - cbn [Backend.app]. unfold Backend.users_router.
    destruct (authenticateToken_cases authorization) as [[user ->]|[->| ->]];
      [|simpl; constructor..].
    destruct r as [|i|n e pw r now|i n e r|i]; cbn [users_route].
    + simpl. apply Forall_sanitized.
    + rewrite get_user_eq. destruct (find _ (users s)); simpl; repeat constructor.
    + rewrite post_user_eq.
      destruct (find _ (users s)); simpl; repeat constructor.
    + pose proof (put_user_eq i n e r s) as Hp.
      destruct (find _ (users s)) as [u|].
      * destruct (email_conflict e u s).
        -- rewrite Hp. simpl. constructor.
        -- destruct Hp as (k & _ & _ & ->). simpl. repeat constructor.
      * rewrite Hp. simpl. constructor.
    + pose proof (delete_user_eq i s) as Hd.
      destruct (find _ (users s)).
      * destruct Hd as (k & _ & _ & ->). simpl. constructor.
      * rewrite Hd. simpl. constructor.
Qed.

(** *** The handlers one by one *)

(** X13: [PUT /api/users/:id] answers 404 when the identity is absent, 409
    when a non-empty email other than the record's own is sent and some
    record has it, and 200 with the sanitised updated record otherwise; the
    store changes in the last case only.  An email equal to the record's own
    and an empty email pass without the look-up. *)
Theorem put_user_contract (i : Z) (n e r : option string) (s : Store) :
  match find (fun u => id u =? i) (users s) with
  | None => put_user i n e r s = (Ok (mkResp 404 (JError "User not found")), s)
  | Some u =>
      if email_conflict e u s
      then put_user i n e r s =
             (Ok (mkResp 409 (JError "Email already exists")), s)
      else fst (put_user i n e r s) =
             Ok (mkResp 200
                   (JUser (sanitizeUser (apply_update (mkUpdate n e r) u)))) /\
           snd (put_user i n e r s) = snd (updateUser i (mkUpdate n e r) s)
  end.
Proof.
  pose proof (put_user_eq i n e r s) as Hp.
  destruct (find _ (users s)) as [u|]; [|exact Hp].
  destruct (email_conflict e u s); [exact Hp|].
  destruct Hp as (k & _ & -> & ->). split; reflexivity.
Qed.

(** X14: in a store whose identities are below the counter,
    [POST /api/users] answers 409 and changes nothing when the email is
    taken; otherwise it answers 201 with the new sanitised record, and
    [GET /api/users/:id] on the new identity answers 200 with the same
    record. *)
Theorem post_user_then_get (n e pw : string) (r : option string) (now : Z)
  (s : Store) (Hok : store_ok s) :
  match find (fun u => String.eqb (email u) e) (users s) with
  | Some _ =>
      post_user bcrypt_hash n e pw r now s =
        (Ok (mkResp 409 (JError "Email already exists")), s)
  | None =>
      exists u s',
        post_user bcrypt_hash n e pw r now s = (Ok (mkResp 201 (JUser u)), s') /\
        id u = idCounter s /\ email u = e /\
        get_user (id u) s' = (Ok (mkResp 200 (JUser u)), s')
  end.
Proof.
  rewrite post_user_eq. destruct (find _ (users s)); [reflexivity|].
  eexists. eexists. split; [reflexivity|]. cbn [id email].
  split; [reflexivity|]. split; [reflexivity|].
  rewrite get_user_eq. cbn [users].
  rewrite find_app_last, (find_id_fresh s Hok). cbn [id].
  rewrite Z.eqb_refl. reflexivity.
Qed.

(** X15: in a store with pairwise distinct identities,
    [DELETE /api/users/:id] answers 404 and changes nothing when the identity
    is absent; otherwise it answers 204, and afterwards both
    [GET /api/users/:id] and a second [DELETE] on that identity answer
    404. *)
Theorem delete_user_then_get (i : Z) (s : Store) (Hok : store_ok s) :
  match find (fun u => id u =? i) (users s) with
  | None =>
      delete_user i s = (Ok (mkResp 404 (JError "User not found")), s)
  | Some _ =>
      exists s',
        delete_user i s = (Ok (mkResp 204 NoBody), s') /\
        get_user i s' = (Ok (mkResp 404 (JError "User not found")), s') /\
        delete_user i s' = (Ok (mkResp 404 (JError "User not found")), s')
  end.
Proof.
  pose proof (delete_user_eq i s) as Hd.
  destruct (find _ (users s)) as [u|] eqn:Hf; [|exact Hd].
  destruct Hd as (k & Hl & _ & Hd).
  apply find_some in Hf. destruct Hf as [_ Hid]. apply Z.eqb_eq in Hid. subst i.
  eexists. split; [exact Hd|].
  assert (Hgone : find (fun x => id x =? id u) (delete k (users s)) = None).
  { apply find_id_delete; [apply Hok | exact Hl]. }
  split.
  - rewrite get_user_eq. cbn [users]. rewrite Hgone. reflexivity.
  - pose proof (delete_user_eq (id u)
                  (mkStore (delete k (users s)) (idCounter s))) as Hd2.
    cbn [users] in Hd2. rewrite Hgone in Hd2. exact Hd2.
Qed.

(** *** The token check *)

Lemma split_space_no_space (a : string) :
  no_space a = true -> split_space a = [a].
Proof.
  induction a as [|c a IH]; simpl; [reflexivity|].
  intros H. apply andb_true_iff in H. destruct H as [Hc Ha].
  apply negb_true_iff in Hc. rewrite Hc, (IH Ha). reflexivity.
Qed.

Lemma split_space_app (a b : string) :
  no_space a = true ->
  split_space (a +:+ String " " b) = a :: split_space b.
Proof.
  induction a as [|c a IH]; simpl; [reflexivity|].
  intros H. apply andb_true_iff in H. destruct H as [Hc Ha].
  apply negb_true_iff in Hc. rewrite Hc, (IH Ha). reflexivity.
Qed.

(** X16: [authenticateToken] looks only at the second space-separated word
    of the header.  Without a header, or with a header of one word, it
    answers 401; with a second word it answers 401 if that word is empty,
    403 if [verifyToken] rejects it, and lets the request pass otherwise,
    whatever the first word is and whatever follows the second. *)
Theorem authenticateToken_reads_second_word (scheme token rest : string)
  (Hs : no_space scheme = true) (Ht : no_space token = true) :
  let on_token :=
    if String.eqb token "" then
      Rejected Payload (mkResp 401 (JError "No token provided."))
    else match verifyToken token with
         | Some user => Passed Payload user
         | None => Rejected Payload (mkResp 403 (JError "Invalid or expired token."))
         end in
  authenticateToken None =
    Rejected Payload (mkResp 401 (JError "No token provided.")) /\
  authenticateToken (Some scheme) =
    Rejected Payload (mkResp 401 (JError "No token provided.")) /\
  authenticateToken (Some (scheme +:+ " " +:+ token)) = on_token /\
  authenticateToken (Some (scheme +:+ " " +:+ token +:+ " " +:+ rest)) = on_token.
Proof.
  cbn zeta. unfold Backend.authenticateToken.
  rewrite (split_space_no_space scheme Hs).
  change (scheme +:+ " " +:+ token) with (scheme +:+ String " " token).
  change (scheme +:+ " " +:+ token +:+ " " +:+ rest)
    with (scheme +:+ String " " (token +:+ String " " rest)).
  rewrite !(split_space_app scheme) by exact Hs.
  rewrite (split_space_app token) by exact Ht.
  rewrite (split_space_no_space token Ht). simpl.
  destruct (String.eqb token ""); simpl; repeat split; reflexivity.
Qed.

(** X17: a request to a user route that fails the token check is answered
    by the check itself, with 401 or 403 and no user record, and leaves the
    store as it was; only a request that passes reaches the route's
    handler. *)
Theorem users_router_guard (authorization : option string)
  (req : UsersRequest) (s : Store) :
  match authenticateToken authorization with
  | Rejected _ r =>
      users_router authorization req s = (Ok r, s) /\
      (status r = 401 \/ status r = 403) /\
      body_users (body r) = []
  | Passed _ _ =>
      users_router authorization req s = users_route bcrypt_hash req s
  end.
Proof.
  unfold Backend.users_router.
  destruct (authenticateToken_cases authorization) as [[user ->]|[->| ->]].
  - reflexivity.
  - split; [reflexivity|]. split; [left|]; reflexivity.
  - split; [reflexivity|]. split; [right|]; reflexivity.
Qed.

End HttpProperties.

(** ** Further facts about the list component *)

Section ClientProperties.

Import Client.

Variable localeCompare : string -> string -> Z.
Variable parseDate : string -> option Z.

Local Abbreviation compareUsers := (Client.compareUsers localeCompare parseDate).
Local Abbreviation sortUsers := (Client.sortUsers localeCompare parseDate).
Local Abbreviation filterUsers := (Client.filterUsers localeCompare parseDate).
Local Abbreviation getUsers := (Client.getUsers localeCompare parseDate).

(** *** The comparator *)

(** X18: unless both records have an undefined value for the field, sorting
    descending compares as sorting ascending with the two records
    swapped. *)
Theorem compareUsers_desc_is_asc_swapped (f : string) (a b : User)
  (H : getField f a <> VUndefined \/ getField f b <> VUndefined) :
  compareUsers f desc a b = compareUsers f asc b a.
Proof.
  unfold Client.compareUsers.
  destruct (getField f a) as [|na|sa|ta], (getField f b) as [|nb|sb|tb];
    try reflexivity; try (destruct H; congruence);
    destruct (String.eqb f "createdAt"); reflexivity.
Qed.

(** X19: when both records have an undefined value for the field the
    comparator never answers 0: ascending it puts whichever record it is
    given first before the other, descending after it. *)
Theorem compareUsers_both_undefined (f : string) (d : SortDirection) (a b : User)
  (Ha : getField f a = VUndefined) (Hb : getField f b = VUndefined) :
  compareUsers f d a b = match d with asc => -1 | desc => 1 end /\
  compareUsers f d b a = match d with asc => -1 | desc => 1 end.
Proof.
  unfold Client.compareUsers. rewrite Ha, Hb. split; reflexivity.
Qed.

(** X20: two defined [createdAt] values are compared by their time values,
    whether they are [Date] objects or text; [localeCompare] is not
    consulted, and an invalid date compares as equal to everything. *)
Theorem compareUsers_createdAt_by_time (a b : User)
  (Ha : createdAt a <> None) (Hb : createdAt b <> None) :
  compareUsers "createdAt" asc a b =
    match created_time parseDate a, created_time parseDate b with
    | Some x, Some y => if x <? y then -1 else if y <? x then 1 else 0
    | _, _ => 0
    end.
Proof.
  unfold Client.compareUsers, getField, created_time. simpl.
  destruct (createdAt a) as [[ta|sa]|]; [| |congruence];
    destruct (createdAt b) as [[tb|sb]|]; try congruence; simpl;
    unfold js_lt, toNumber;
    repeat match goal with
           | |- context [match ?t with Some _ => _ | None => _ end] =>
               destruct t
           end; reflexivity.
Qed.

(** *** Sorting keeps the records *)

Lemma sort_insert_perm {A} (cmp : A -> A -> Z) (x : A) (l : list A) :
  sort_insert cmp x l ≡ₚ x :: l.
Proof.
  induction l as [|y l IH]; simpl; [reflexivity|].
  destruct (cmp x y <=? 0); [reflexivity|].
  rewrite IH. apply Permutation_swap.
Qed.

Lemma js_sort_perm {A} (cmp : A -> A -> Z) (l : list A) : js_sort cmp l ≡ₚ l.
Proof.
  induction l as [|x l IH]; simpl; [reflexivity|].
  rewrite sort_insert_perm, IH. reflexivity.
Qed.

Lemma slice_to_take (n : Z) (l : list User) :
  exists m : nat, slice_to n l = take m l.
Proof. unfold slice_to. destruct (n <? 0); eauto. Qed.

Lemma cap_list_prefix (c : Component) (l : list User) :
  cap_list c l `prefix_of` l.
Proof.
  unfold cap_list. destruct (limit_set c) as [n|]; [|reflexivity].
  destruct (slice_to_take n l) as [m ->]. apply prefix_take.
Qed.

Lemma cap_list_length (c : Component) (l : list User) :
  Z.of_nat (length (cap_list c l)) =
    capped_length (limit c) (Z.of_nat (length l)).
Proof.
  unfold cap_list, limit_set, capped_length, slice_to.
  destruct (limit c) as [n|]; [|reflexivity].
  destruct (n =? 0) eqn:H0; [reflexivity|]. apply Z.eqb_neq in H0.
  destruct (n <? 0) eqn:Hn; rewrite length_take; lia.
Qed.

(** X21: a filter step shows only records of the full set, and with a
    non-empty filter text only records that match it; when no cap is set it
    shows each such record exactly once. *)
Theorem filterUsers_shows_matching_records (text : string)
  (c : Component) (h : heap) :
  let t := trim (toLowerCase text) in
  let wanted :=
    if nonempty t then List.filter (matches t) (cached c h) else cached c h in
  let (c', h') := filterUsers text c h in
  displayed c' h' ⊆ wanted /\
  (forall u, u ∈ wanted ->
     u ∈ cached c h /\ (nonempty t = true -> matches t u = true)) /\
  (limit_set c = None -> displayed c' h' ≡ₚ wanted).
Proof.
  intros t wanted. pose proof (filterUsers_result localeCompare parseDate text c h) as Hs.
  cbn zeta in Hs. fold t in Hs. fold wanted in Hs.
  destruct (filterUsers text c h) as [c' h'].
  destruct Hs as (-> & _). split; [|split].
  - intros u Hu. destruct (cap_list_prefix c (js_sort
      (compareUsers (field (currentSort c)) (direction (currentSort c))) wanted))
      as [k Hk].
    rewrite <- (js_sort_perm
      (compareUsers (field (currentSort c)) (direction (currentSort c))) wanted).
    rewrite Hk. apply elem_of_app. left. exact Hu.
  - intros u Hu. unfold wanted in Hu. destruct (nonempty t).
    + apply list_elem_of_In, filter_In in Hu. destruct Hu as [Hin Hm].
      split; [apply list_elem_of_In, Hin | auto].
    + split; [exact Hu | discriminate].
  - intros Hcap. unfold cap_list. rewrite Hcap. apply js_sort_perm.
Qed.

(** X22: after a sort step the display is an initial part of the sorted
    source list (the current display when a filter is active, the full set
    otherwise); its length is that of the source when the cap is unset or 0,
    the smaller of cap and length for a positive cap, and for a negative cap
    as many records less, from the end. *)
Theorem sortUsers_cap_semantics (f : string) (d : option SortDirection)
  (c : Component) (h : heap) :
  let source := if nonempty (filterText c) then displayed c h else cached c h in
  let sorted :=
    js_sort (compareUsers f (next_direction f d (currentSort c))) source in
  let (c', h') := sortUsers f d c h in
  displayed c' h' `prefix_of` sorted /\
  sorted ≡ₚ source /\
  Z.of_nat (length (displayed c' h')) =
    capped_length (limit c) (Z.of_nat (length source)).
Proof.
  intros source sorted.
  pose proof (sortUsers_result localeCompare parseDate f d c h) as Hs.
  fold source in Hs. fold sorted in Hs.
  destruct (sortUsers f d c h) as [c' h'].
  destruct Hs as (-> & _). split; [apply cap_list_prefix|].
  split; [apply js_sort_perm|].
  rewrite cap_list_length. unfold sorted.
  rewrite (Permutation_length (js_sort_perm _ source)). reflexivity.
Qed.

(** *** Filtering starts from the full set *)

(** X23: what a filter step shows does not depend on the filter that was
    active before: filtering by [t2] after filtering by [t1] shows the same
    list, with the same filter text and sort state, as filtering by [t2]
    straight away. *)
Theorem filterUsers_forgets_previous_filter (t1 t2 : string)
  (c : Component) (h : heap) (Hvalid : (allUsers c < length h)%nat) :
  let (c1, h1) := filterUsers t1 c h in
  let (c2, h2) := filterUsers t2 c1 h1 in
  let (c2', h2') := filterUsers t2 c h in
  displayed c2 h2 = displayed c2' h2' /\
  filterText c2 = filterText c2' /\
  currentSort c2 = currentSort c2'.
Proof.
  pose proof (filterUsers_result localeCompare parseDate t1 c h) as H1.
  cbn zeta in H1.
  destruct (filterUsers t1 c h) as [c1 h1].
  pose proof (step_keeps_cache c h _ _ _ _ Hvalid H1) as (_ & Hc & _).
  destruct H1 as (_ & _ & _ & _ & Hlim & _ & _ & _ & Hsort).
  pose proof (filterUsers_result localeCompare parseDate t2 c1 h1) as H2.
  pose proof (filterUsers_result localeCompare parseDate t2 c h) as H2'.
  cbn zeta in H2, H2'.
  destruct (filterUsers t2 c1 h1) as [c2 h2].
  destruct (filterUsers t2 c h) as [c2' h2'].
  destruct H2 as (-> & _ & _ & _ & _ & _ & _ & -> & ->).
  destruct H2' as (-> & _ & _ & _ & _ & _ & _ & -> & ->).
  unfold cap_list, limit_set. rewrite Hlim, Hsort, Hc. auto.
Qed.

(** *** Sorted output *)

Lemma sort_insert_sorted {A} (cmp : A -> A -> Z) (x : A) (l : list A) :
  (forall a b, cmp a b <= 0 \/ cmp b a <= 0) ->
  (forall a b c, cmp a b <= 0 -> cmp b c <= 0 -> cmp a c <= 0) ->
  StronglySorted (fun a b => cmp a b <= 0) l ->
  StronglySorted (fun a b => cmp a b <= 0) (sort_insert cmp x l).
Proof.
  intros Htotal Htrans. induction 1 as [|y l Hs IH Hall]; simpl.
  - repeat constructor.
  - destruct (cmp x y <=? 0) eqn:Hxy.
    + apply Z.leb_le in Hxy. constructor; [constructor; assumption|].
      constructor; [exact Hxy|].
      eapply Forall_impl; [exact Hall|]. intros z Hz. simpl in Hz. eauto.
    + apply Z.leb_gt in Hxy. constructor; [exact IH|].
      rewrite sort_insert_perm. constructor; [|exact Hall].
      destruct (Htotal x y); [lia | assumption].
Qed.

Lemma js_sort_sorted {A} (cmp : A -> A -> Z) (l : list A) :
  (forall a b, cmp a b <= 0 \/ cmp b a <= 0) ->
  (forall a b c, cmp a b <= 0 -> cmp b c <= 0 -> cmp a c <= 0) ->
  StronglySorted (fun a b => cmp a b <= 0) (js_sort cmp l).
Proof.
  intros Htotal Htrans. induction l as [|x l IH]; simpl.
  - constructor.
  - apply sort_insert_sorted; assumption.
Qed.

Lemma StronglySorted_prefix {A} (R : A -> A -> Prop) (l1 l2 : list A) :
  l1 `prefix_of` l2 -> StronglySorted R l2 -> StronglySorted R l1.
Proof.
  intros [k ->]. induction l1 as [|a l1 IH]; simpl; intros Hs.
  - constructor.
  - apply StronglySorted_inv in Hs. destruct Hs as [Hs Hall].
    constructor; [auto|]. apply Forall_app in Hall. tauto.
Qed.

Lemma StronglySorted_impl {A} (R R' : A -> A -> Prop) (l : list A) :
  (forall a b, R a b -> R' a b) -> StronglySorted R l -> StronglySorted R' l.
Proof.
  intros HR. induction 1 as [|a l Hs IH Hall]; constructor; auto.
  eapply Forall_impl; [exact Hall|]. intros b. apply HR.
Qed.

(** X24: for a field that holds text in every record (name, email) and a
    [localeCompare] that is total and transitive, a sort request with an
    explicit direction leaves the display in that order: ascending, no
    record is followed by one whose text collates strictly before its own;
    descending, the other way round. *)
Theorem sortUsers_by_text_is_sorted (f : string) (key : User -> string)
  (d : SortDirection) (c : Component) (h : heap)
  (Hkey : forall u, getField f u = VString (key u))
  (Htotal : forall a b, localeCompare a b <= 0 \/ localeCompare b a <= 0)
  (Htrans : forall a b c,
      localeCompare a b <= 0 -> localeCompare b c <= 0 -> localeCompare a c <= 0) :
  let (c', h') := sortUsers f (Some d) c h in
  StronglySorted
    (fun a b => match d with
                | asc => localeCompare (key a) (key b) <= 0
                | desc => localeCompare (key b) (key a) <= 0
                end)
    (displayed c' h').
Proof.
  assert (Hf : String.eqb f "createdAt" = false).
  { destruct (String.eqb f "createdAt") eqn:E; [|reflexivity].
    apply String.eqb_eq in E. subst f.
    specialize (Hkey (mkUser 0 "" "" None None)). discriminate. }
  assert (Hcmp : forall a b,
             compareUsers f d a b =
               match d with
               | asc => localeCompare (key a) (key b)
               | desc => localeCompare (key b) (key a)
               end).
  { intros a b. unfold Client.compareUsers. rewrite !Hkey, Hf. reflexivity. }
  pose proof (sortUsers_result localeCompare parseDate f (Some d) c h) as Hs.
  cbn [next_direction] in Hs.
  destruct (sortUsers f (Some d) c h) as [c' h'].
  destruct Hs as (-> & _).
  eapply StronglySorted_prefix; [apply cap_list_prefix|].
  eapply StronglySorted_impl; [|apply (js_sort_sorted (compareUsers f d))].
  - intros a b. simpl. rewrite Hcmp. destruct d; auto.
  - intros a b. rewrite !Hcmp. destruct d; auto.
  - intros a b c0. rewrite !Hcmp. destruct d; eauto.
Qed.

(** *** Fetching *)

(** X25: after a successful fetch while no filter is active, the component
    holds the fetched array as its full set, shows its records sorted by the
    current sort and cut to the cap, has no error and is not loading; the
    sort state is as before. *)
Theorem getUsers_success_shows_fetched (data : loc) (c : Component) (h : heap)
  (Hfilter : filterText c = EmptyString) :
  let (c', h') := getUsers (Next data) c h in
  allUsers c' = data /\
  loading c' = false /\ error c' = None /\
  currentSort c' = currentSort c /\
  displayed c' h' =
    cap_list c
      (js_sort (compareUsers (field (currentSort c)) (direction (currentSort c)))
         (deref h data)) /\
  displayed c' h' ⊆ deref h data.
Proof.
  unfold Client.getUsers, bind.
  set (c0 := set_allUsers data (set_error None (set_loading true c))).
  pose proof (sortUsers_result localeCompare parseDate
                (field (currentSort c0)) (Some (direction (currentSort c0)))
                c0 h) as Hs.
  destruct (sortUsers _ _ c0 h) as [c' h'].
  cbn [next_direction] in Hs.
  destruct Hs as (Hd & _ & _ & Hall & _ & _ & Herr & _ & Hsort).
  unfold ret, displayed, cached in *.
  cbn [allUsers loading error currentSort users set_loading].
  cbn [allUsers error currentSort filterText set_allUsers set_error
       set_loading c0] in Hd, Hall, Herr, Hsort.
  rewrite Hfilter in Hd. cbn [nonempty String.eqb negb] in Hd.
  assert (Hcap : cap_list c0 = cap_list c) by reflexivity.
  rewrite Hcap in Hd.
  split; [exact Hall|]. split; [reflexivity|]. split; [exact Herr|].
  split; [rewrite Hsort; destruct (currentSort c); reflexivity|].
  split; [exact Hd|].
  intros u Hu. rewrite Hd in Hu.
  destruct (cap_list_prefix c (js_sort
      (compareUsers (field (currentSort c)) (direction (currentSort c)))
      (deref h data))) as [k Hk].
  rewrite <- (js_sort_perm
      (compareUsers (field (currentSort c)) (direction (currentSort c)))
      (deref h data)).
  rewrite Hk. apply elem_of_app. left. exact Hu.
Qed.

(** *** The sort icon *)

(** X26: after a sort request on a field, that field's icon is the arrow of
    the direction now in force and every other field's icon is 'sort'. *)
Theorem getSortIcon_after_sort (f g : string) (d : option SortDirection)
  (c : Component) (h : heap) :
  getSortIcon g (fst (sortUsers f d c h)) =
    if String.eqb g f then
      match next_direction f d (currentSort c) with
      | asc => "arrow_upward"
      | desc => "arrow_downward"
      end
    else "sort".
Proof.
  pose proof (sortUsers_result localeCompare parseDate f d c h) as Hs.
  destruct (sortUsers f d c h) as [c' h']. cbn [fst].
  destruct Hs as (_ & _ & _ & _ & _ & _ & _ & _ & Hsort).
  unfold getSortIcon. rewrite Hsort. cbn [field direction].
  destruct (String.eqb g f); reflexivity.
Qed.

(** *** The filter predicate *)

Lemma prefix_spec (p s : string) :
  String.prefix p s = true <-> exists post, s = p +:+ post.
Proof.
  revert s. induction p as [|a p IH]; intros s.
  - split; [intros _; exists s; reflexivity|]. intros _. destruct s; reflexivity.
  - destruct s as [|b s]; simpl.
    + split; [discriminate|]. intros [post H]. discriminate.
    + destruct (ascii_dec a b) as [->|Hne].
      * rewrite IH. split; intros [post H]; exists post.
        -- rewrite H. reflexivity.
        -- simpl in H. injection H as H. exact H.
      * split; [discriminate|]. intros [post H]. simpl in H.
        injection H as H1 H2. congruence.
Qed.

Lemma includes_spec (s pat : string) :
  includes s pat = true <-> substring_of pat s.
Proof.
  unfold substring_of. induction s as [|c s IH]; cbn [includes].
  - destruct (String.prefix pat "") eqn:Hp.
    + split; [|reflexivity]. intros _. apply prefix_spec in Hp.
      destruct Hp as [post Hp]. exists "", post. exact Hp.
    + split; [discriminate|]. intros (pre & post & H).
      destruct pre; simpl in H; [|discriminate].
      assert (String.prefix pat "" = true) by (apply prefix_spec; eauto).
      congruence.
  - destruct (String.prefix pat (String c s)) eqn:Hp.
    + split; [|reflexivity]. intros _. apply prefix_spec in Hp.
      destruct Hp as [post Hp]. exists "", post. exact Hp.
    + rewrite IH. split.
      * intros (pre & post & ->). exists (String c pre), post. reflexivity.
      * intros (pre & post & H). destruct pre as [|c' pre]; simpl in H.
        -- assert (String.prefix pat (String c s) = true)
             by (apply prefix_spec; eauto).
           congruence.
        -- injection H as _ H. eauto.
Qed.

(** X27: a record passes the filter exactly when the filter text occurs in
    its lower-cased name, in its lower-cased email, or in its lower-cased
    role, where a record without a role or with an empty role passes by name
    or email only. *)
Theorem matches_spec (text : string) (u : User) :
  matches text u = true <->
  substring_of text (toLowerCase (name u)) \/
  substring_of text (toLowerCase (email u)) \/
  exists r, role u = Some r /\ r <> EmptyString /\
            substring_of text (toLowerCase r).
Proof.
  unfold matches. rewrite !orb_true_iff, !includes_spec.
  split.
  - intros [[H|H]|H]; auto. right. right.
    destruct (role u) as [r|]; [|discriminate].
    apply andb_true_iff in H. destruct H as [Hne H].
    exists r. split; [reflexivity|]. split.
    + unfold nonempty in Hne. apply negb_true_iff, String.eqb_neq in Hne.
      exact Hne.
    + apply includes_spec. exact H.
  - intros [H|[H|(r & Hr & Hne & H)]]; auto. right.
    rewrite Hr. apply andb_true_iff. split.
    + unfold nonempty. apply negb_true_iff, String.eqb_neq. exact Hne.
    + apply includes_spec. exact H.
Qed.

End ClientProperties.

(** ** The further facts on concrete inputs *)

Example sample_session_answers :
  Backend.answers sample_hash sample_compare sample_token string sample_verify
    sample_session Backend.init =
  [ Backend.Ok (Backend.mkResp 201 (Backend.JToken "jwt:alice@example.com"));
    Backend.Ok (Backend.mkResp 201
      (Backend.JUser
         (Backend.mkUser 2 "Bob" "bob@example.com" (Some "User") (Some 1) None)));
    Backend.Ok (Backend.mkResp 409 (Backend.JError "Email already exists"));
    Backend.Ok (Backend.mkResp 200
      (Backend.JUser
         (Backend.mkUser 2 "Bob" "bob@example.com" (Some "User") (Some 1) None)));
    Backend.Ok (Backend.mkResp 403 (Backend.JError "Invalid or expired token."));
    Backend.Ok (Backend.mkResp 401 (Backend.JError "No token provided.")) ].
Proof. reflexivity. Qed.

Lemma two_users_ok : Backend.store_ok two_users.
Proof.
  apply (exec_store_ok sample_hash sample_compare). apply init_store_ok.
Qed.

Lemma sample_collate_le (a b : string) :
  sample_collate a b <= 0 <-> String.compare a b <> Gt.
Proof.
  unfold sample_collate. destruct (String.compare a b); split; intros H;
    try lia; try discriminate; congruence.
Qed.

Lemma sample_collate_total (a b : string) :
  sample_collate a b <= 0 \/ sample_collate b a <= 0.
Proof.
  rewrite !sample_collate_le. rewrite (String.compare_antisym a b).
  destruct (String.compare b a); simpl; [left|right|left]; discriminate.
Qed.

Lemma sample_collate_trans (a b c : string) :
  sample_collate a b <= 0 -> sample_collate b c <= 0 -> sample_collate a c <= 0.
Proof.
  rewrite !sample_collate_le. intros Hab Hbc.
  destruct (String.compare a b) eqn:Eab; [| |congruence].
  - apply OrderedTypeEx.String_as_OT.cmp_eq in Eab. subst b. exact Hbc.
  - destruct (String.compare b c) eqn:Ebc; [| |congruence].
    + apply OrderedTypeEx.String_as_OT.cmp_eq in Ebc. subst c.
      rewrite Eab. discriminate.
    + apply OrderedTypeEx.String_as_OT.cmp_lt in Eab, Ebc.
      pose proof (OrderedTypeEx.String_as_OT.lt_trans _ _ _ Eab Ebc) as Hac.
      apply OrderedTypeEx.String_as_OT.cmp_lt in Hac.
      unfold OrderedTypeEx.String_as_OT.cmp in Hac. rewrite Hac. discriminate.
Qed.

Lemma create_then_getUserById_witness :
  Backend.store_ok two_users /\
  let (r, s') := Backend.createUser sample_hash alice 5 two_users in
  exists u, r = Backend.Ok u /\ Backend.id u = Backend.idCounter two_users /\
            Backend.getUserById (Backend.id u) s' = (Backend.Ok (Some u), s').
Proof.
  split; [exact two_users_ok|].
  exact (create_then_getUserById sample_hash alice 5 two_users two_users_ok).
Defined.

Lemma query_or_rejection_keeps_store_witness :
  (exists msg,
     fst (Backend.run_op sample_hash sample_compare (Backend.OpDeleteUser 999)
            two_users) = Backend.Throw msg) /\
  snd (Backend.run_op sample_hash sample_compare (Backend.OpDeleteUser 999)
         two_users) = two_users.
Proof.
  assert (H : exists msg,
             fst (Backend.run_op sample_hash sample_compare
                    (Backend.OpDeleteUser 999) two_users) = Backend.Throw msg)
    by (eexists; reflexivity).
  split; [exact H|].
  exact (query_or_rejection_keeps_store sample_hash sample_compare
           (Backend.OpDeleteUser 999) two_users (or_intror H)).
Defined.

Lemma deleteUser_contract_witness :
  Backend.store_ok two_users /\
  exists s',
    Backend.deleteUser 1 two_users = (Backend.Ok true, s') /\
    Backend.getUserById 1 s' = (Backend.Ok None, s').
Proof.
  split; [exact two_users_ok|].
  pose proof (deleteUser_contract 1 two_users two_users_ok) as H.
  change (find (fun u => Backend.id u =? 1) (Backend.users two_users))
    with (Some (Backend.mkUser 1 "Alice" "alice@example.com" None (Some 0)
                  (Some "$2b$10$password1"))) in H.
  destruct H as (s' & Hd & _ & _ & _ & Hg & _). exists s'. split; assumption.
Defined.

Lemma register_then_login_succeeds_witness :
  sample_compare "password1" (sample_hash "password1") = true /\
  sample_hash "password1" <> EmptyString /\
  find (fun x => String.eqb (Backend.email x) "alice@example.com")
    (Backend.users Backend.init) = None /\
  let (r, s') :=
    Backend.register sample_hash sample_token "Alice" "alice@example.com"
      "password1" 0 Backend.init in
  exists u,
    r = Backend.Ok (Backend.mkResp 201 (Backend.JToken (sample_token u))) /\
    Backend.id u = Backend.idCounter Backend.init /\
    Backend.email u = "alice@example.com" /\ Backend.password u = None /\
    Backend.login sample_compare sample_token "alice@example.com" "password1" s' =
      (Backend.Ok (Backend.mkResp 200 (Backend.JToken (sample_token u))), s').
Proof.
  assert (Hne : sample_hash "password1" <> EmptyString) by discriminate.
  split; [reflexivity|]. split; [exact Hne|]. split; [reflexivity|].
  exact (register_then_login_succeeds sample_hash sample_compare sample_token
           "Alice" "alice@example.com" "password1" 0 Backend.init
           eq_refl Hne eq_refl).
Defined.

Lemma sample_session_valid : Forall Backend.update_email_nonempty sample_session.
Proof. repeat constructor. simpl. discriminate. Qed.


Lemma post_user_then_get_witness :
  Backend.store_ok two_users /\
  exists u s',
    Backend.post_user sample_hash "Carol" "carol@example.com" "password3" None 2
      two_users = (Backend.Ok (Backend.mkResp 201 (Backend.JUser u)), s') /\
    Backend.get_user (Backend.id u) s' =
      (Backend.Ok (Backend.mkResp 200 (Backend.JUser u)), s').
Proof.
  split; [exact two_users_ok|].
  pose proof (post_user_then_get sample_hash "Carol" "carol@example.com"
                "password3" None 2 two_users two_users_ok) as H.
  change (find (fun u => String.eqb (Backend.email u) "carol@example.com")
            (Backend.users two_users)) with (@None Backend.User) in H.
  destruct H as (u & s' & Hp & _ & _ & Hg). exists u, s'. split; assumption.
Defined.

Lemma delete_user_then_get_witness :
  Backend.store_ok two_users /\
  exists s',
    Backend.delete_user 2 two_users =
      (Backend.Ok (Backend.mkResp 204 Backend.NoBody), s') /\
    Backend.get_user 2 s' =
      (Backend.Ok (Backend.mkResp 404 (Backend.JError "User not found")), s').
Proof.
  split; [exact two_users_ok|].
  pose proof (delete_user_then_get 2 two_users two_users_ok) as H.
  change (find (fun u => Backend.id u =? 2) (Backend.users two_users))
    with (Some (Backend.mkUser 2 "Bob" "bob@example.com" (Some "User") (Some 1)
                  (Some "$2b$10$password2"))) in H.
  destruct H as (s' & Hd & Hg & _). exists s'. split; assumption.
Defined.

Lemma authenticateToken_reads_second_word_witness :
  Backend.no_space "Token" = true /\
  Backend.no_space "jwt:alice@example.com" = true /\
  Backend.authenticateToken string sample_verify
    (Some "Token jwt:alice@example.com trailing") =
    Backend.Passed string "alice@example.com".
Proof.
  split; [reflexivity|]. split; [reflexivity|].
  exact (proj2 (proj2 (proj2
    (authenticateToken_reads_second_word string sample_verify
       "Token" "jwt:alice@example.com" "trailing" eq_refl eq_refl)))).
Defined.

Lemma compareUsers_desc_is_asc_swapped_witness :
  (Client.getField "role" c_alice <> Client.VUndefined \/
   Client.getField "role" c_bob <> Client.VUndefined) /\
  Client.compareUsers sample_collate sample_parseDate "role" Client.desc
    c_alice c_bob =
  Client.compareUsers sample_collate sample_parseDate "role" Client.asc
    c_bob c_alice.
Proof.
  assert (H : Client.getField "role" c_alice <> Client.VUndefined \/
              Client.getField "role" c_bob <> Client.VUndefined)
    by (right; discriminate).
  split; [exact H|].
  exact (compareUsers_desc_is_asc_swapped sample_collate sample_parseDate
           "role" c_alice c_bob H).
Defined.

Lemma compareUsers_both_undefined_witness :
  Client.getField "role" c_alice = Client.VUndefined /\
  Client.compareUsers sample_collate sample_parseDate "role" Client.asc
    c_alice c_alice = -1.
Proof.
  split; [reflexivity|].
  exact (proj1 (compareUsers_both_undefined sample_collate sample_parseDate
                  "role" Client.asc c_alice c_alice eq_refl eq_refl)).
Defined.

Lemma compareUsers_createdAt_by_time_witness :
  Client.createdAt c_alice <> None /\ Client.createdAt c_bob <> None /\
  Client.compareUsers sample_collate sample_parseDate "createdAt" Client.asc
    c_alice c_bob = -1.
Proof.
  assert (Ha : Client.createdAt c_alice <> None) by discriminate.
  assert (Hb : Client.createdAt c_bob <> None) by discriminate.
  split; [exact Ha|]. split; [exact Hb|].
  exact (compareUsers_createdAt_by_time sample_collate sample_parseDate
           c_alice c_bob Ha Hb).
Defined.

Lemma filterUsers_forgets_previous_filter_witness :
  (Client.allUsers sample_component < length sample_heap)%nat /\
  let (c1, h1) :=
    Client.filterUsers sample_collate sample_parseDate "admin"
      sample_component sample_heap in
  let (c2, h2) :=
    Client.filterUsers sample_collate sample_parseDate "user" c1 h1 in
  let (c2', h2') :=
    Client.filterUsers sample_collate sample_parseDate "user"
      sample_component sample_heap in
  Client.displayed c2 h2 = Client.displayed c2' h2' /\
  Client.filterText c2 = Client.filterText c2' /\
  Client.currentSort c2 = Client.currentSort c2'.
Proof.
  assert (Hv : (Client.allUsers sample_component < length sample_heap)%nat)
    by (simpl; lia).
  split; [exact Hv|].
  exact (filterUsers_forgets_previous_filter sample_collate sample_parseDate
           "admin" "user" sample_component sample_heap Hv).
Defined.

Lemma sortUsers_by_text_is_sorted_witness :
  (forall u, Client.getField "name" u = Client.VString (Client.name u)) /\
  let (c', h') :=
    Client.sortUsers sample_collate sample_parseDate "name" (Some Client.desc)
      sample_component sample_heap in
  StronglySorted
    (fun a b => sample_collate (Client.name b) (Client.name a) <= 0)
    (Client.displayed c' h').
Proof.
  assert (Hkey : forall u,
             Client.getField "name" u = Client.VString (Client.name u))
    by (intros u; reflexivity).
  split; [exact Hkey|].
  exact (sortUsers_by_text_is_sorted sample_collate sample_parseDate
           "name" Client.name Client.desc sample_component sample_heap
           Hkey sample_collate_total sample_collate_trans).
Defined.

Lemma getUsers_success_shows_fetched_witness :
  Client.filterText sample_component = EmptyString /\
  let (c', h') :=
    Client.getUsers sample_collate sample_parseDate (Client.Next 2%nat)
      sample_component sample_heap in
  Client.allUsers c' = 2%nat /\ Client.loading c' = false /\
  Client.displayed c' h' = [u_ann; u_cat].
Proof.
  split; [reflexivity|].
  pose proof (getUsers_success_shows_fetched sample_collate sample_parseDate
                2%nat sample_component sample_heap eq_refl) as H.
  destruct (Client.getUsers sample_collate sample_parseDate (Client.Next 2%nat)
              sample_component sample_heap) as [c' h'].
  destruct H as (Ha & Hl & _ & _ & Hd & _).
  split; [exact Ha|]. split; [exact Hl|]. rewrite Hd. reflexivity.
Defined.
